(** * Relevance search over the AHA resource collection ([server.js])

    A shallow embedding of [searchAhaResources] and of the JavaScript
    built-ins it relies on, followed by the properties of the search.

    Conventions of the model.
    - A JavaScript string is the list of its code units.  The model covers
      strings over the Latin-1 range (code units 0..255), on which
      [toLowerCase], [trim] and the [\s] class are closed; a code unit is an
      [ascii].
    - Objects live in a heap addressed by locations; an array holds
      references.  [Array.prototype.map] and [filter] allocate their result,
      [sort] works in place.
    - A call either returns normally, throws, or leaves the fragment of the
      RegExp pattern language that is formalised here ([Unsupported]).  *)

From Stdlib Require Import Ascii String DecimalString ZArith Lia Sorted Permutation.
From stdpp Require Import list.

Local Open Scope nat_scope.

(** ** Completions *)

Inductive exn := SyntaxError | TypeError.

Inductive completion (A : Type) : Type :=
| Normal (a : A)
| Throw (e : exn)
| Unsupported.

Arguments Normal {A} a.
Arguments Throw {A} e.
Arguments Unsupported {A}.

Definition cbind {A B} (m : completion A) (k : A -> completion B) : completion B :=
  match m with
  | Normal a => k a
  | Throw e => Throw e
  | Unsupported => Unsupported
  end.

(** ** Strings *)

Module JsString.

Definition t := list ascii.

Definition str (s : string) : t := list_ascii_of_string s.

(** WhiteSpace and LineTerminator code units below 256: TAB, LF, VT, FF, CR,
    SP and NBSP.  This is the set stripped by [trim] and matched by [\s]. *)
Definition isWhiteSpace (c : ascii) : bool :=
  let n := nat_of_ascii c in
  ((9 <=? n) && (n <=? 13)) || (n =? 32) || (n =? 160).

(** Upper-case code units below 256: A-Z, and U+00C0..U+00DE without the
    multiplication sign U+00D7.  Their lower case lies 32 above. *)
Definition isUpper (c : ascii) : bool :=
  let n := nat_of_ascii c in
  ((65 <=? n) && (n <=? 90)) || ((192 <=? n) && (n <=? 222) && negb (n =? 215)).

Definition lowerUnit (c : ascii) : ascii :=
  if isUpper c then ascii_of_nat (nat_of_ascii c + 32) else c.

Definition toLowerCase (s : t) : t := map lowerUnit s.

Fixpoint trimStart (s : t) : t :=
  match s with
  | c :: s' => if isWhiteSpace c then trimStart s' else s
  | [] => []
  end.

Definition trimEnd (s : t) : t := rev (trimStart (rev s)).

Definition trim (s : t) : t := trimEnd (trimStart s).

Fixpoint startsWith (s p : t) {struct p} : bool :=
  match p, s with
  | [], _ => true
  | a :: p', b :: s' => Ascii.eqb a b && startsWith s' p'
  | _ :: _, [] => false
  end.

(** [s.includes(p)] *)
Fixpoint includes (s p : t) : bool :=
  startsWith s p ||
  match s with
  | [] => false
  | _ :: s' => includes s' p
  end.

(** [s.split(/\s+/)]: the pieces between maximal runs of white space; a
    leading or trailing run leaves an empty piece, and the empty string
    splits into one empty piece. *)
Fixpoint split_ws_from (in_sep : bool) (piece : t) (s : t) : list t :=
  match s with
  | [] => [piece]
  | c :: s' =>
      if isWhiteSpace c then
        if in_sep then split_ws_from true [] s'
        else piece :: split_ws_from true [] s'
      else split_ws_from false (piece ++ [c]) s'
  end.

Definition split_ws (s : t) : list t := split_ws_from false [] s.

(** [a.join(sep)] *)
Fixpoint join (sep : t) (a : list t) : t :=
  match a with
  | [] => []
  | [x] => x
  | x :: a' => x ++ sep ++ join sep a'
  end.

End JsString.

Import JsString.

(** ** Regular expressions

    [new RegExp(pattern, "g")] for the patterns built from pattern
    characters, [.], groups, [|] and the quantifiers [*], [+], [?] with
    their lazy forms.  A pattern with a backslash, a bracket, a brace, [^],
    [$] or a group opening with [(?] is outside the fragment. *)

Module RegExp.

Inductive quant := QStar | QPlus | QOpt.

Inductive regex :=
| REmpty
| RChar (c : ascii)
| RDot
| RSeq (r1 r2 : regex)
| RAlt (r1 r2 : regex)
| RRepeat (q : quant) (greedy : bool) (r : regex).

(** What a quantifier character would apply to. *)
Inductive qstate :=
| AfterOpen    (* just after "(" *)
| NoAtom       (* at the start of the pattern or just after "|" *)
| Atom         (* after an atom *)
| Quantified   (* after a greedy quantifier: "?" makes it lazy *)
| Lazy.        (* after a lazy quantifier *)

Record frame := Frame {
  alts : list regex;      (* alternatives completed in this group *)
  terms_rev : list regex  (* terms of the current alternative, last first *)
}.

Definition mkSeq (rs : list regex) : regex := foldr RSeq REmpty rs.

Fixpoint mkAlt (r : regex) (rs : list regex) : regex :=
  match rs with
  | [] => r
  | r' :: rs' => RAlt r (mkAlt r' rs')
  end.

Definition closeFrame (f : frame) : regex :=
  match alts f ++ [mkSeq (rev (terms_rev f))] with
  | r :: rs => mkAlt r rs
  | [] => REmpty
  end.

Definition pushTerm (r : regex) (f : frame) : frame :=
  Frame (alts f) (r :: terms_rev f).

Definition syntaxCharacter (c : ascii) : bool :=
  existsb (Ascii.eqb c) (str "^$\.*+?()[]{}|").

Definition quantOf (c : ascii) : option quant :=
  if Ascii.eqb c "*" then Some QStar
  else if Ascii.eqb c "+" then Some QPlus
  else if Ascii.eqb c "?" then Some QOpt
  else None.

(** One pass over the pattern with a stack of open groups; [cur] is the
    innermost one. *)
Fixpoint parse (pat : t) (cur : frame) (stack : list frame) (st : qstate)
  : completion regex :=
  match pat with
  | [] =>
      match stack with
      | [] => Normal (closeFrame cur)
      | _ :: _ => Throw SyntaxError            (* unterminated group *)
      end
  | c :: pat' =>
      if Ascii.eqb c "(" then parse pat' (Frame [] []) (cur :: stack) AfterOpen
      else if Ascii.eqb c ")" then
        match stack with
        | [] => Throw SyntaxError              (* unmatched ")" *)
        | up :: stack' => parse pat' (pushTerm (closeFrame cur) up) stack' Atom
        end
      else if Ascii.eqb c "|" then
        parse pat' (Frame (alts cur ++ [mkSeq (rev (terms_rev cur))]) []) stack NoAtom
      else if Ascii.eqb c "." then parse pat' (pushTerm RDot cur) stack Atom
      else
        match quantOf c with
        | Some q =>
            match st, terms_rev cur with
            | Atom, r :: rs =>
                parse pat' (Frame (alts cur) (RRepeat q true r :: rs)) stack Quantified
            | Quantified, RRepeat q' _ r :: rs =>
                match q with
                | QOpt => parse pat' (Frame (alts cur) (RRepeat q' false r :: rs)) stack Lazy
                | _ => Throw SyntaxError       (* nothing to repeat *)
                end
            | AfterOpen, _ =>
                match q with
                | QOpt => Unsupported           (* "(?": group modifier *)
                | _ => Throw SyntaxError
                end
            | _, _ => Throw SyntaxError        (* nothing to repeat *)
            end
        | None =>
            if syntaxCharacter c then Unsupported
            else parse pat' (pushTerm (RChar c) cur) stack Atom
        end
  end.

(** [new RegExp(pattern, "g")] *)
Definition compile (pattern : t) : completion regex :=
  parse pattern (Frame [] []) [] NoAtom.

(** A match state is the rest of the input after the characters consumed so
    far; a continuation answers with the final state or fails. *)
Definition cont := t -> option t.
Definition matcherT := t -> cont -> option t.

Definition orElse (a b : option t) : option t :=
  match a with
  | Some z => Some z
  | None => b
  end.

(** The continuation of one iteration of a repeat that started at [x]: an
    iteration that consumed nothing is rejected. *)
Definition progress (x : t) (k : cont) : cont :=
  fun y => if length y =? length x then None else k y.

(** RepeatMatcher for min = 0 and no upper bound; [length x] iterations at
    most can make progress. *)
Fixpoint repeatStar (m : matcherT) (greedy : bool) (fuel : nat) (x : t) (c : cont)
  : option t :=
  match fuel with
  | 0 => c x
  | S fuel' =>
      let d := progress x (fun y => repeatStar m greedy fuel' y c) in
      if greedy then orElse (m x d) (c x) else orElse (c x) (m x d)
  end.

(** RepeatMatcher for min = 0 and max = 1. *)
Definition repeatOpt (m : matcherT) (greedy : bool) (x : t) (c : cont) : option t :=
  let d := progress x c in
  if greedy then orElse (m x d) (c x) else orElse (c x) (m x d).

Definition isLineTerminator (c : ascii) : bool :=
  (nat_of_ascii c =? 10) || (nat_of_ascii c =? 13).

Fixpoint matcher (r : regex) (x : t) (c : cont) : option t :=
  match r with
  | REmpty => c x
  | RChar a =>
      match x with
      | b :: x' => if Ascii.eqb a b then c x' else None
      | [] => None
      end
  | RDot =>
      match x with
      | b :: x' => if isLineTerminator b then None else c x'
      | [] => None
      end
  | RSeq r1 r2 => matcher r1 x (fun y => matcher r2 y c)
  | RAlt r1 r2 => orElse (matcher r1 x c) (matcher r2 x c)
  | RRepeat QStar g r1 => repeatStar (matcher r1) g (S (length x)) x c
  | RRepeat QPlus g r1 =>
      matcher r1 x (fun y => repeatStar (matcher r1) g (S (length y)) y c)
  | RRepeat QOpt g r1 => repeatOpt (matcher r1) g x c
  end.

(** One attempt at the current position. *)
Definition matchHere (r : regex) (x : t) : option t := matcher r x Some.

(** The number of matches [text.match(re)] collects for a global [re]:
    after a match the scan resumes at its end, one further when the match is
    empty; after a failure at a position, at the next one. *)
Fixpoint countMatches (r : regex) (fuel : nat) (x : t) : nat :=
  match fuel with
  | 0 => 0
  | S fuel' =>
      match matchHere r x with
      | Some y =>
          S (if length y =? length x
             then match x with
                  | [] => 0
                  | _ :: x' => countMatches r fuel' x'
                  end
             else countMatches r fuel' y)
      | None =>
          match x with
          | [] => 0
          | _ :: x' => countMatches r fuel' x'
          end
      end
  end.

(** [(text.match(new RegExp(pattern, "g")) || []).length] *)
Definition matchCount (pattern text : t) : completion nat :=
  cbind (compile pattern) (fun r => Normal (countMatches r (S (length text)) text)).

End RegExp.

(** ** Resources and the heap *)

Record resource := Resource {
  resource_id : t;
  title : t;
  category : t;
  content : t;
  keywords : option (list t);   (* may be absent *)
  url : option t                (* may be absent *)
}.

(** Locations are indices into the heap. *)
Abbreviation loc := nat (only parsing).

Inductive obj :=
| OResource (r : resource)
| OItem (res : loc) (score : nat)     (* { resource, score } *)
| OArray (elems : list loc).

Abbreviation heap := (list obj) (only parsing).

(** Computations over the heap that may throw. *)
Definition M (A : Type) : Type := heap -> completion (A * heap).

Definition ret {A} (a : A) : M A := fun h => Normal (a, h).

Definition bind {A B} (m : M A) (k : A -> M B) : M B :=
  fun h =>
    match m h with
    | Normal (a, h') => k a h'
    | Throw e => Throw e
    | Unsupported => Unsupported
    end.

Definition lift {A} (c : completion A) : M A :=
  fun h => cbind c (fun a => Normal (a, h)).

Notation "'let*' x ':=' m 'in' k" := (bind m (fun x => k))
  (at level 10, x name, m at level 100, k at level 200).

Definition alloc (o : obj) : M loc := fun h => Normal (length h, h ++ [o]).

Definition getResource (l : loc) : M resource :=
  fun h =>
    match h !! l with
    | Some (OResource r) => Normal (r, h)
    | _ => Throw TypeError
    end.

Definition getItem (l : loc) : M (loc * nat) :=
  fun h =>
    match h !! l with
    | Some (OItem res score) => Normal ((res, score), h)
    | _ => Throw TypeError
    end.

Definition getArray (l : loc) : M (list loc) :=
  fun h =>
    match h !! l with
    | Some (OArray elems) => Normal (elems, h)
    | _ => Throw TypeError
    end.

Definition setArray (l : loc) (elems : list loc) : M unit :=
  fun h => Normal (tt, <[l := OArray elems]> h).

(** *** Array methods *)

Fixpoint mapM {A B} (f : A -> M B) (l : list A) : M (list B) :=
  match l with
  | [] => ret []
  | x :: l' =>
      let* y := f x in
      let* ys := mapM f l' in
      ret (y :: ys)
  end.

Fixpoint filterM {A} (p : A -> M bool) (l : list A) : M (list A) :=
  match l with
  | [] => ret []
  | x :: l' =>
      let* b := p x in
      let* ys := filterM p l' in
      ret (if b then x :: ys else ys)
  end.

(** [a.map(f)] allocates the array of the results. *)
Definition Array_map (f : loc -> M loc) (a : loc) : M loc :=
  let* elems := getArray a in
  let* out := mapM f elems in
  alloc (OArray out).

(** [a.filter(p)] allocates the array of the elements kept. *)
Definition Array_filter (p : loc -> M bool) (a : loc) : M loc :=
  let* elems := getArray a in
  let* out := filterM p elems in
  alloc (OArray out).

(** [a.sort(cmp)] is stable and sorts [a] itself: an element moves behind
    another only when [cmp] puts it strictly after.  For a consistent
    comparator the resulting order does not depend on the algorithm; the
    model inserts the elements from the right. *)
Fixpoint insertM (cmp : loc -> loc -> M Z) (x : loc) (l : list loc) : M (list loc) :=
  match l with
  | [] => ret [x]
  | y :: l' =>
      let* c := cmp x y in
      if (c <=? 0)%Z then ret (x :: y :: l')
      else
        let* l'' := insertM cmp x l' in
        ret (y :: l'')
  end.

Fixpoint sortM (cmp : loc -> loc -> M Z) (l : list loc) : M (list loc) :=
  match l with
  | [] => ret []
  | x :: l' =>
      let* s := sortM cmp l' in
      insertM cmp x s
  end.

Definition Array_sort (cmp : loc -> loc -> M Z) (a : loc) : M loc :=
  let* elems := getArray a in
  let* s := sortM cmp elems in
  let* _ := setArray a s in
  ret a.

(** ** The search *)

Definition LF : ascii := ascii_of_nat 10.

(** The template literal of [searchableText], lower-cased: each field sits
    on a line of its own, indented by six spaces. *)
Definition joinedKeywords (resource : resource) : t :=
  match keywords resource with
  | Some kws => join (str " ") kws
  | None => []
  end.

Definition searchableText (resource : resource) : t :=
  toLowerCase
    (LF :: str "      " ++ title resource ++ str " " ++
     LF :: str "      " ++ category resource ++ str " " ++
     LF :: str "      " ++ content resource ++ str " " ++
     LF :: str "      " ++ joinedKeywords resource ++
     LF :: str "    ").

(** The predicate of [resource.keywords.filter(...)]. *)
Definition keywordMatch (queryLower : t) (queryTerms : list t) (keyword : t) : bool :=
  includes (toLowerCase keyword) queryLower ||
  existsb (fun term => includes (toLowerCase keyword) term) queryTerms.

(** The body of [queryTerms.forEach(...)] for one term. *)
Definition termStep (text : t) (score : nat) (term : t) : completion nat :=
  if 2 <? length term then
    cbind (RegExp.matchCount term text) (fun termMatches =>
    Normal (score + termMatches * 5))
  else Normal score.

Fixpoint forEachTerm (text : t) (queryTerms : list t) (score : nat) : completion nat :=
  match queryTerms with
  | [] => Normal score
  | term :: rest => cbind (termStep text score term) (forEachTerm text rest)
  end.

(** The score the callback of [ahaResources.resources.map] computes.
    Scores are small non-negative integers, exact as JavaScript numbers. *)
Definition scoreResource (queryLower : t) (queryTerms : list t) (resource : resource)
  : completion nat :=
  let score := 0 in
  let text := searchableText resource in
  let score := if includes text queryLower then score + 100 else score in
  let score :=
    if includes (toLowerCase (title resource)) queryLower then score + 50 else score in
  let score :=
    match keywords resource with
    | Some kws =>
        let keywordMatches :=
          length (List.filter (keywordMatch queryLower queryTerms) kws) in
        score + keywordMatches * 30
    | None => score
    end in
  cbind (forEachTerm text queryTerms score) (fun score =>
  let score :=
    if includes (toLowerCase (category resource)) queryLower then score + 20 else score in
  Normal score).

Definition queryLowerOf (query : t) : t := trim (toLowerCase query).

Definition queryTermsOf (query : t) : list t :=
  List.filter (fun term => 0 <? length term) (split_ws (queryLowerOf query)).

Definition itemScore (item : loc) : M nat :=
  let* p := getItem item in ret (snd p).

Definition itemResource (item : loc) : M loc :=
  let* p := getItem item in ret (fst p).

(** [searchAhaResources(query)]; [resources] is the array
    [ahaResources.resources]. *)
Definition searchAhaResources (resources : loc) (query : t) : M loc :=
  if (length query =? 0) || (length (trim query) =? 0) then alloc (OArray [])
  else
    let queryLower := queryLowerOf query in
    let queryTerms := queryTermsOf query in
    let* scoredResources :=
      Array_map (fun resource =>
        let* r := getResource resource in
        let* score := lift (scoreResource queryLower queryTerms r) in
        alloc (OItem resource score)) resources in
    let* filtered :=
      Array_filter (fun item =>
        let* score := itemScore item in ret (0 <? score)) scoredResources in
    let* sorted :=
      Array_sort (fun a b =>
        let* sa := itemScore a in
        let* sb := itemScore b in
        ret (Z.of_nat sb - Z.of_nat sa)%Z) filtered in
    Array_map itemResource sorted.

(** *** Running a search on a loaded collection *)

(** [JSON.parse] builds one object per resource and the array of them. *)
Definition load (docs : list resource) : heap * loc :=
  (map OResource docs ++ [OArray (seq 0 (length docs))], length docs).

Definition getResources (a : loc) : M (list resource) :=
  let* elems := getArray a in mapM getResource elems.

(** The resources a search returns on the collection [docs], in order. *)
Definition searchOn (docs : list resource) (query : t) : completion (list resource) :=
  let (h, resources) := load docs in
  match (let* out := searchAhaResources resources query in getResources out) h with
  | Normal (rs, _) => Normal rs
  | Throw e => Throw e
  | Unsupported => Unsupported
  end.

(** * Definitions for the statements *)

(** No code unit of [q] is white space. *)
Definition noWhiteSpace (q : t) : Prop :=
  forall c, In c q -> isWhiteSpace c = false.

(** What [insertM] and [sortM] compute when the comparator is the
    difference of two scores, [key b - key a]. *)
Fixpoint insertByScore {A} (key : A -> nat) (x : A) (l : list A) : list A :=
  match l with
  | [] => [x]
  | y :: l' => if key y <=? key x then x :: y :: l' else y :: insertByScore key x l'
  end.

Fixpoint sortByScore {A} (key : A -> nat) (l : list A) : list A :=
  match l with
  | [] => []
  | x :: l' => insertByScore key x (sortByScore key l')
  end.

Definition descending {A} (key : A -> nat) : list A -> Prop :=
  StronglySorted (fun a b => key b <= key a).

(** [H] holds at each location of [l] the item [view] describes. *)
Definition holdsItems (H : heap) (view : loc -> loc * nat) (l : list loc) : Prop :=
  forall i, In i l -> H !! i = Some (OItem (fst (view i)) (snd (view i))).

(** The comparator of the sort, [(a, b) => b.score - a.score]. *)
Definition byScore : loc -> loc -> M Z :=
  fun a b =>
    let* sa := itemScore a in
    let* sb := itemScore b in
    ret (Z.of_nat sb - Z.of_nat sa)%Z.

(** The callback of the scoring pass, which allocates one item per
    resource. *)
Definition scoring (queryLower : t) (queryTerms : list t) : loc -> M loc :=
  fun resource =>
    let* r := getResource resource in
    let* score := lift (scoreResource queryLower queryTerms r) in
    alloc (OItem resource score).

(** Every reference of [ls] points to a resource whose score is computed
    and is [sc]. *)
Definition scoredBy (H : heap) (ql : t) (qt : list t) (sc : loc -> nat)
  (ls : list loc) : Prop :=
  forall l, In l ls ->
    exists r, H !! l = Some (OResource r) /\ scoreResource ql qt r = Normal (sc l).

(** The guard of the search: [!query || query.trim().length === 0]. *)
Definition blank (query : t) : bool :=
  (length query =? 0) || (length (trim query) =? 0).

(** The resources of positive score, best first, as [sc] scores them. *)
Definition ranked (sc : loc -> nat) (ls : list loc) : list loc :=
  sortByScore sc (List.filter (fun l => 0 <? sc l) ls).

(** The item allocated at [i] when the scoring pass starts on a heap of
    [n0] objects. *)
Definition itemView (n0 : nat) (sc : loc -> nat) (ls : list loc) : loc -> loc * nat :=
  fun i => let l := nth (i - n0) ls 0 in (l, sc l).

(** The score of the resource at [l], 0 where none is computed. *)
Definition scoreOf (h : heap) (query : t) (l : loc) : nat :=
  match h !! l with
  | Some (OResource r) =>
      match scoreResource (queryLowerOf query) (queryTermsOf query) r with
      | Normal s => s
      | _ => 0
      end
  | _ => 0
  end.

(** The collection at [a] is the array [ls] of references to resources. *)
Definition collection (h : heap) (a : loc) (ls : list loc) : Prop :=
  h !! a = Some (OArray ls) /\
  forall l, In l ls -> exists r, h !! l = Some (OResource r).

Definition heartAttackDoc (i : t) (u : option t) : resource :=
  Resource i (str "Heart Attack Symptoms") (str "Symptoms")
    (str "Chest pain, shortness of breath...")
    (Some [str "chest pain"; str "heart attack"]) u.

Definition strokeDoc : resource :=
  Resource (str "stroke") (str "Stroke Warning Signs") (str "Symptoms")
    (str "Face drooping, arm weakness, speech difficulty.")
    (Some [str "stroke"; str "fast"]) (Some (str "https://www.stroke.org")).

Definition dietDoc : resource :=
  Resource (str "diet") (str "Healthy Eating") (str "Prevention")
    (str "A heart healthy diet protects the heart.") None None.

Definition exampleDocs : list resource :=
  [strokeDoc; dietDoc; heartAttackDoc (str "ha") None].

(** The result of a run that returned, for stating examples. *)
Definition returned (c : completion (loc * heap)) : loc * heap :=
  match c with
  | Normal p => p
  | _ => (0, [])
  end.

Definition phraseBonus (queryLower : t) (r : resource) : nat :=
  if includes (searchableText r) queryLower then 100 else 0.

Definition titleBonus (queryLower : t) (r : resource) : nat :=
  if includes (toLowerCase (title r)) queryLower then 50 else 0.

Definition keywordScore (queryLower : t) (queryTerms : list t) (r : resource) : nat :=
  match keywords r with
  | Some kws => length (List.filter (keywordMatch queryLower queryTerms) kws) * 30
  | None => 0
  end.

Definition categoryBonus (queryLower : t) (r : resource) : nat :=
  if includes (toLowerCase (category r)) queryLower then 20 else 0.

(** The term-frequency component: what [queryTerms.forEach] adds. *)
Definition termFrequency (text : t) (queryTerms : list t) : completion nat :=
  forEachTerm text queryTerms 0.

(** The number of non-overlapping occurrences of [p] as a literal substring
    of [s], counted from the left; [skip] characters of the occurrence
    counted last are still to be passed. *)
Fixpoint occurrencesFrom (p : t) (skip : nat) (s : t) : nat :=
  match s with
  | [] => 0
  | _ :: s' =>
      match skip with
      | S k => occurrencesFrom p k s'
      | 0 =>
          if startsWith s p then S (occurrencesFrom p (length p - 1) s')
          else occurrencesFrom p 0 s'
      end
  end.

Definition literalOccurrences (p s : t) : nat := occurrencesFrom p 0 s.

Definition unbalancedQuery : t := str "heart attack (symptoms".

Definition heartAttackQuery : t := str "heart attack".

(** Every term long enough to be counted is a pattern of the fragment. *)
Definition termsCompile (queryTerms : list t) : Prop :=
  forall term, In term queryTerms -> 2 < length term ->
    exists re, RegExp.compile term = Normal re.

Definition t_eq_dec : forall x y : t, {x = y} + {x <> y} :=
  List.list_eq_dec Ascii.ascii_dec.

Definition greetingDoc : resource :=
  Resource (str "greeting") (str "Greeting") (str "Misc")
    (str "Oh hi there, reader.") None None.

Definition pressureDoc (kws : list t) : resource :=
  Resource (str "pressure") (str "Blood Pressure") (str "Conditions")
    (str "Know your numbers.") (Some kws) None.

Definition highKeywords : list t :=
  [str "High blood pressure"; str "high cholesterol"; str "high risk";
   str "high sodium"].

Definition hiThereQuery : t := str "Hi there".

(** The content of [A] contains the normalised query. *)
Definition contentHasQuery (query : t) (A : resource) : Prop :=
  includes (content A) (queryLowerOf query) = true.

(** [B] shares one term with the query: a term of at most two characters
    that lies in a keyword of [B]; no other term of the query occurs in the
    searchable text of [B]. *)
Definition sharesOnlyShortKeywordTerm (query : t) (B : resource) : Prop :=
  exists term,
    In term (queryTermsOf query) /\ length term <= 2 /\
    (exists kws kw, keywords B = Some kws /\ In kw kws /\
                    includes (toLowerCase kw) term = true) /\
    (forall term', In term' (queryTermsOf query) -> term' <> term ->
                   includes (searchableText B) term' = false).

(** A string without syntax characters of the pattern language. *)
Definition literal (p : t) : Prop :=
  forall c, In c p -> RegExp.syntaxCharacter c = false.

(** A matcher hands to its continuation only states that lie no earlier in
    the input than its own. *)
Definition forward (m : RegExp.matcherT) : Prop :=
  forall x c1 c2,
    (forall y, length y <= length x -> c1 y = c2 y) -> m x c1 = m x c2.

(** An answer of a matcher is an answer of its continuation, at a state no
    earlier than its own. *)
Definition answers (m : RegExp.matcherT) : Prop :=
  forall x c w, m x c = Some w -> exists z, length z <= length x /\ c z = Some w.

(** ** Definitions for the further properties *)

(** What the term-frequency pass adds when every term is read literally: 5
    for each non-overlapping occurrence of each term longer than two
    characters. *)
Definition literalFrequency (text : t) (queryTerms : list t) : nat :=
  list_sum (map (fun term =>
                   if 2 <? length term then literalOccurrences term text * 5 else 0)
                queryTerms).

(** The resource with its searched fields in lower case. *)
Definition lowerResource (r : resource) : resource :=
  Resource (resource_id r) (toLowerCase (title r)) (toLowerCase (category r))
    (toLowerCase (content r)) (option_map (map toLowerCase) (keywords r)) (url r).

(** ** The tool [search_aha_resources]

    The handler registered for the tool: it checks the query, runs the
    search and renders the three best resources.  What it returns is fresh
    and shared with nothing, so it is a value of the model: the text of the
    one content item and the structured content, when there is one.  The
    handler is an async function: a run that throws is a promise that is
    rejected. *)

Definition DQ : ascii := ascii_of_nat 34.

(** A number in a template literal: an array length or an index, in
    decimal. *)
Definition decimal (n : nat) : t := str (NilEmpty.string_of_uint (Nat.to_uint n)).

Record summary := Summary {
  summary_id : t;
  summary_title : t;
  summary_category : t
}.

Record structuredContent := StructuredContent {
  sc_query : t;
  resourcesFound : nat;
  sc_resources : list summary
}.

Record toolResult := ToolResult {
  result_text : t;
  result_structured : option structuredContent
}.

Definition promptText : t :=
  str "Please provide a specific question or topic to search in the American Heart Association resources.".

Definition notFoundText (userQuery : t) : t :=
  str "I couldn't find specific information about " ++ DQ :: userQuery ++
  DQ :: str " in the American Heart Association resources. Please try rephrasing your question or asking about a different heart health topic. For general health concerns, please consult with a healthcare professional.".

Definition headerText (userQuery : t) : t :=
  str "Based on American Heart Association resources, here is information about " ++
  DQ :: userQuery ++ DQ :: str ":" ++ [LF; LF].

Definition noteText (found shown : nat) : t :=
  [LF; LF] ++ str "Note: Found " ++ decimal found ++
  str " relevant resources. Showing the top " ++ decimal shown ++
  str " most relevant results.".

Definition disclaimerText : t :=
  [LF; LF] ++
  str "*This information is based solely on American Heart Association resources and guidelines. For specific medical concerns, please consult with a healthcare professional. If you are experiencing a medical emergency, call 911 immediately.*".

(** [a.slice(start, stop)] for [0 <= start <= stop] allocates the array of
    the elements from [start] up to [stop], as far as [a] reaches. *)
Definition Array_slice (start stop : nat) (a : loc) : M loc :=
  let* elems := getArray a in
  alloc (OArray (firstn (stop - start) (skipn start elems))).

(** [a.forEach((x, index) => ...)] where the callback updates a string. *)
Fixpoint forEachIndexed (f : t -> loc -> nat -> M t) (index : nat) (elems : list loc)
  (acc : t) : M t :=
  match elems with
  | [] => ret acc
  | x :: rest =>
      let* acc' := f acc x index in
      forEachIndexed f (index + 1) rest acc'
  end.

(** The callback of [topResources.forEach]; [total] is
    [topResources.length]. *)
Definition renderStep (total : nat) (responseText : t) (resource : loc) (index : nat)
  : M t :=
  let* r := getResource resource in
  let responseText :=
    responseText ++ decimal (index + 1) ++ str ". **" ++ title r ++ str "**" ++ [LF] in
  let responseText :=
    responseText ++ str "   Category: " ++ category r ++ [LF; LF] in
  let responseText := responseText ++ str "   " ++ content r ++ [LF; LF] in
  let responseText :=
    match url r with
    | Some u =>
        if 0 <? length u
        then responseText ++ str "   Learn more: " ++ u ++ [LF]
        else responseText
    | None => responseText
    end in
  let responseText :=
    if index <? total - 1 then responseText ++ [LF] ++ str "---" ++ [LF; LF]
    else responseText in
  ret responseText.

Definition summarize (resource : loc) : M summary :=
  let* r := getResource resource in
  ret (Summary (resource_id r) (title r) (category r)).

(** The handler; [query] is [args?.query], absent when the arguments or the
    field are. *)
Definition searchTool (resources : loc) (query : option t) : M toolResult :=
  let userQuery := match query with Some q => q | None => [] end in
  if (length userQuery =? 0) || (length (trim userQuery) =? 0) then
    ret (ToolResult promptText None)
  else
    let* matchingResources := searchAhaResources resources userQuery in
    let* matching := getArray matchingResources in
    if length matching =? 0 then ret (ToolResult (notFoundText userQuery) None)
    else
      let* topResources := Array_slice 0 3 matchingResources in
      let* top := getArray topResources in
      let responseText := headerText userQuery in
      let* responseText :=
        forEachIndexed (renderStep (length top)) 0 top responseText in
      let responseText :=
        if 3 <? length matching
        then responseText ++ noteText (length matching) (length top)
        else responseText in
      let responseText := responseText ++ disclaimerText in
      let* shown := mapM summarize top in
      ret (ToolResult responseText
             (Some (StructuredContent userQuery (length matching) shown))).

(** What the handler shows of a resource in the structured content. *)
Definition summaryOf (r : resource) : summary :=
  Summary (resource_id r) (title r) (category r).

(** The text of one entry of the answer and of the entries from [index]
    on. *)
Definition renderEntry (total index : nat) (r : resource) : t :=
  decimal (index + 1) ++ str ". **" ++ title r ++ str "**" ++ [LF] ++
  str "   Category: " ++ category r ++ [LF; LF] ++
  str "   " ++ content r ++ [LF; LF] ++
  match url r with
  | Some u => if 0 <? length u then str "   Learn more: " ++ u ++ [LF] else []
  | None => []
  end ++
  (if index <? total - 1 then [LF] ++ str "---" ++ [LF; LF] else []).

Fixpoint renderEntries (total index : nat) (rs : list resource) : t :=
  match rs with
  | [] => []
  | r :: rest => renderEntry total index r ++ renderEntries total (index + 1) rest
  end.

(** The references [locs] point to the resources [rs], in order. *)
Definition resolves (h : heap) (locs : list loc) (rs : list resource) : Prop :=
  Forall2 (fun l r => h !! l = Some (OResource r)) locs rs.

(** The text of an answer that shows the resources [top] out of [found]
    matches. *)
Definition successText (userQuery : t) (found : nat) (top : list resource) : t :=
  headerText userQuery ++ renderEntries (length top) 0 top ++
  (if 3 <? found then noteText found (length top) else []) ++ disclaimerText.

(** What the handler answers when [outl] are the references the search
    returned and [top] the resources of the first three. *)
Definition toolAnswer (userQuery : t) (outl : list loc) (top : list resource)
  : toolResult :=
  match outl with
  | [] => ToolResult (notFoundText userQuery) None
  | _ :: _ =>
      ToolResult (successText userQuery (length outl) top)
        (Some (StructuredContent userQuery (length outl) (map summaryOf top)))
  end.

(** The answer and the heap of a run of the handler that returned, for
    stating examples. *)
Definition answered (c : completion (toolResult * heap)) : toolResult * heap :=
  match c with
  | Normal p => p
  | _ => (ToolResult [] None, [])
  end.

(** ** The request listener

    The callback of [createServer].  [new URL(req.url, base).pathname] is
    the work of the platform: the listener takes it as [pathnameOf], which
    may throw.  A request that reaches the MCP branch is handed to the
    transport of the protocol library once the two headers are set; what
    the transport answers is not part of the listener. *)

Record request := Request {
  req_url : option t;
  req_method : option t;
  req_host : option t      (* [req.headers.host] *)
}.

Inductive reply :=
| Respond (status : nat) (headers : list (t * t)) (body : t)
| HandOver (headers : list (t * t)).

Definition strEq (x y : t) : bool := if t_eq_dec x y then true else false.

Definition methodIs (req : request) (m : t) : bool :=
  match req_method req with
  | Some m' => strEq m' m
  | None => false
  end.

Definition MCP_PATH : t := str "/mcp".

Definition MCP_METHODS : list t := [str "POST"; str "GET"; str "DELETE"].

Definition allowOrigin : t * t := (str "Access-Control-Allow-Origin", str "*").

Definition exposeHeaders : t * t :=
  (str "Access-Control-Expose-Headers", str "Mcp-Session-Id").

(** The base of the URL: [`http://${req.headers.host ?? "localhost"}`]. *)
Definition baseUrl (req : request) : t :=
  str "http://" ++
  match req_host req with
  | Some host => host
  | None => str "localhost"
  end.

Definition requestListener (pathnameOf : t -> t -> completion t) (req : request)
  : completion reply :=
  match req_url req with
  | None => Normal (Respond 400 [] (str "Missing URL"))
  | Some u =>
      if length u =? 0 then Normal (Respond 400 [] (str "Missing URL"))
      else
        cbind (pathnameOf u (baseUrl req)) (fun pathname =>
        if methodIs req (str "OPTIONS") && strEq pathname MCP_PATH then
          Normal (Respond 204
                    [allowOrigin;
                     (str "Access-Control-Allow-Methods", str "POST, GET, OPTIONS");
                     (str "Access-Control-Allow-Headers", str "content-type, mcp-session-id");
                     exposeHeaders]
                    [])
        else if methodIs req (str "GET") && strEq pathname (str "/") then
          Normal (Respond 200 [(str "content-type", str "text/plain")]
                    (str "AHA MCP server"))
        else if strEq pathname MCP_PATH &&
                match req_method req with
                | Some m => (0 <? length m) && existsb (strEq m) MCP_METHODS
                | None => false
                end then
          Normal (HandOver [allowOrigin; exposeHeaders])
        else Normal (Respond 404 [] (str "Not Found")))
  end.

(** The status and the headers of a reply; a request handed over has no
    status yet. *)
Definition notFound : reply := Respond 404 [] (str "Not Found").

Definition headersOf (r : reply) : list (t * t) :=
  match r with
  | Respond _ hs _ => hs
  | HandOver hs => hs
  end.

(** The routes the listener serves. *)
Definition served (method : option t) (pathname : t) : Prop :=
  (pathname = str "/" /\ method = Some (str "GET")) \/
  (pathname = str "/mcp" /\
   (method = Some (str "OPTIONS") \/ method = Some (str "POST") \/
    method = Some (str "GET") \/ method = Some (str "DELETE"))).

(** A parser for examples: the URL is its own path. *)
Definition plainPath : t -> t -> completion t := fun u _ => Normal u.

(** * Properties *)

(** ** Strings *)

Section StringFacts.

Implicit Types s p q : t.

Lemma startsWith_spec s p : startsWith s p = true <-> exists l, s = p ++ l.
Proof.
  revert s; induction p as [|a p IH]; intros s; simpl.
  - split; [intros _; now exists s | reflexivity].
  - destruct s as [|b s].
    + split; [discriminate | intros [l Hl]; discriminate].
    + rewrite andb_true_iff, Ascii.eqb_eq, IH. split.
      * intros [-> [l ->]]. eauto.
      * intros [l Hl]. injection Hl as -> ->. eauto.
Qed.

Lemma startsWith_app s l : startsWith (s ++ l) s = true.
Proof. apply startsWith_spec. eauto. Qed.

(** [includes] is the test for a contiguous substring. *)
Lemma includes_spec s p : includes s p = true <-> exists l1 l2, s = l1 ++ p ++ l2.
Proof.
  induction s as [|b s IH]; simpl.
  - rewrite orb_false_r, startsWith_spec. split.
    + intros [l Hl]. exists [], l. exact Hl.
    + intros (l1 & l2 & Hl). symmetry in Hl.
      apply app_eq_nil in Hl as [-> Hl]. apply app_eq_nil in Hl as [-> ->].
      exists []. reflexivity.
  - rewrite orb_true_iff, startsWith_spec, IH. split.
    + intros [[l Hl] | (l1 & l2 & ->)].
      * exists [], l. exact Hl.
      * exists (b :: l1), l2. reflexivity.
    + intros (l1 & l2 & Hl). destruct l1 as [|c l1].
      * left. exists l2. exact Hl.
      * right. injection Hl as _ ->. eauto.
Qed.

Lemma includes_false s p :
  includes s p = false <-> ~ exists l1 l2, s = l1 ++ p ++ l2.
Proof. rewrite <- includes_spec. destruct (includes s p); split; congruence. Qed.

Lemma includes_nil s : includes s [] = true.
Proof. apply includes_spec. exists [], s. reflexivity. Qed.

Lemma includes_embed s p l1 l2 :
  includes s p = true -> includes (l1 ++ s ++ l2) p = true.
Proof.
  rewrite !includes_spec. intros (a & b & ->).
  exists (l1 ++ a), (b ++ l2). now rewrite <- !app_assoc.
Qed.

Lemma lowerUnit_idem c : lowerUnit (lowerUnit c) = lowerUnit c.
Proof. destruct c as [[] [] [] [] [] [] [] []]; reflexivity. Qed.

Lemma lowerUnit_whiteSpace c : isWhiteSpace (lowerUnit c) = isWhiteSpace c.
Proof. destruct c as [[] [] [] [] [] [] [] []]; reflexivity. Qed.

Lemma toLowerCase_app s1 s2 : toLowerCase (s1 ++ s2) = toLowerCase s1 ++ toLowerCase s2.
Proof. apply map_app. Qed.

Lemma toLowerCase_idem s : toLowerCase (toLowerCase s) = toLowerCase s.
Proof.
  unfold toLowerCase. rewrite map_map. apply map_ext. apply lowerUnit_idem.
Qed.

Lemma includes_toLowerCase s p :
  includes s p = true -> includes (toLowerCase s) (toLowerCase p) = true.
Proof.
  rewrite !includes_spec. intros (l1 & l2 & ->).
  exists (toLowerCase l1), (toLowerCase l2). now rewrite !toLowerCase_app.
Qed.

Lemma trimStart_incl s c : In c (trimStart s) -> In c s.
Proof.
  induction s as [|a s IH]; simpl; [tauto|].
  destruct (isWhiteSpace a); simpl; tauto.
Qed.

Lemma trim_incl s c : In c (trim s) -> In c s.
Proof.
  unfold trim, trimEnd. intros H.
  apply in_rev, trimStart_incl, in_rev in H. now apply trimStart_incl.
Qed.

Lemma trimStart_blank s : forallb isWhiteSpace s = true -> trimStart s = [].
Proof.
  induction s as [|a s IH]; simpl; [reflexivity|].
  rewrite andb_true_iff. intros [-> H]. auto.
Qed.

Lemma trim_blank s : forallb isWhiteSpace s = true -> trim s = [].
Proof. intros H. unfold trim. now rewrite (trimStart_blank s H). Qed.

(** A normalised query is in lower case already. *)
Lemma queryLowerOf_lower query : toLowerCase (queryLowerOf query) = queryLowerOf query.
Proof.
  unfold queryLowerOf.
  assert (H : forall c, In c (trim (toLowerCase query)) -> lowerUnit c = c).
  { intros c Hc. apply trim_incl in Hc. unfold toLowerCase in Hc.
    apply in_map_iff in Hc as (c' & <- & _). apply lowerUnit_idem. }
  revert H. generalize (trim (toLowerCase query)). intros l.
  induction l as [|a l IH]; intros H; simpl; [reflexivity|].
  rewrite (H a) by (now left). f_equal. apply IH. intros c Hc. apply H. now right.
Qed.

(** A string without white space that lies in [a ++ w :: b], [w] a white
    space, lies in [a] or in [b]. *)
Lemma includes_across_whiteSpace q a w b :
  noWhiteSpace q -> isWhiteSpace w = true ->
  includes (a ++ w :: b) q = true ->
  includes a q = true \/ includes b q = true.
Proof.
  intros Hq Hw. rewrite !includes_spec. intros (l1 & l2 & H).
  apply app_eq_app in H as [k [[-> H] | [-> H]]].
  - apply app_eq_app in H as [m [[-> H] | [-> H]]].
    + destruct m as [|w' m]; simpl in H.
      * left. exists l1, []. now rewrite !app_nil_r.
      * injection H as <- _. rewrite (Hq w) in Hw; [discriminate|].
        apply in_or_app. right. now left.
    + left. exists l1, m. reflexivity.
  - destruct k as [|w' k]; simpl in H.
    + destruct q as [|e q]; simpl in H.
      * left. exists a, []. now rewrite app_nil_r.
      * injection H as -> _. rewrite (Hq e) in Hw by (now left). discriminate.
    + injection H as _ ->. right. eauto.
Qed.

End StringFacts.

(** ** The matcher and its fuel *)

Section RepeatFuel.

Import RegExp.

Lemma repeatStar_S m g fuel x c :
  repeatStar m g (S fuel) x c =
  if g then orElse (m x (progress x (fun y => repeatStar m g fuel y c))) (c x)
  else orElse (c x) (m x (progress x (fun y => repeatStar m g fuel y c))).
Proof. reflexivity. Qed.

Lemma progress_ext x k1 k2 y :
  (length y < length x -> k1 y = k2 y) ->
  length y <= length x -> progress x k1 y = progress x k2 y.
Proof.
  intros H Hy. unfold progress. destruct (length y =? length x) eqn:E; [reflexivity|].
  apply Nat.eqb_neq in E. apply H. lia.
Qed.

Lemma repeatStar_forward m g fuel :
  forward m -> forward (repeatStar m g fuel).
Proof.
  intros Hm. induction fuel as [|fuel IH]; intros x c1 c2 Hc.
  - now apply Hc.
  - rewrite !repeatStar_S.
    rewrite (Hm x (progress x (fun y => repeatStar m g fuel y c1))
                  (progress x (fun y => repeatStar m g fuel y c2))).
    + now rewrite (Hc x) by lia.
    + intros y Hy. apply progress_ext; [|exact Hy].
      intros Hlt. apply IH. intros z Hz. apply Hc. lia.
Qed.

Lemma repeatOpt_forward m g : forward m -> forward (repeatOpt m g).
Proof.
  intros Hm x c1 c2 Hc. unfold repeatOpt.
  rewrite (Hm x (progress x c1) (progress x c2)).
  - now rewrite (Hc x) by lia.
  - intros y Hy. apply progress_ext; [|exact Hy]. intros _. now apply Hc.
Qed.

Lemma matcher_forward r : forward (matcher r).
Proof.
  induction r as [| a | | r1 IH1 r2 IH2 | r1 IH1 r2 IH2 | q g r1 IH1];
    intros x c1 c2 Hc; cbn [matcher].
  - now apply Hc.
  - destruct x as [|b x]; [reflexivity|]. destruct (Ascii.eqb a b); [|reflexivity].
    apply Hc. simpl. lia.
  - destruct x as [|b x]; [reflexivity|]. destruct (isLineTerminator b); [reflexivity|].
    apply Hc. simpl. lia.
  - apply IH1. intros y Hy. apply IH2. intros z Hz. apply Hc. lia.
  - now rewrite (IH1 x c1 c2 Hc), (IH2 x c1 c2 Hc).
  - destruct q.
    + now apply repeatStar_forward.
    + apply IH1. intros y Hy. apply repeatStar_forward; [exact IH1|].
      intros z Hz. apply Hc. lia.
    + now apply repeatOpt_forward.
Qed.

(** The fuel [S (length x)] that [matcher] gives to [repeatStar] is never
    used up: any larger amount yields the same answer. *)
Lemma repeatStar_fuel m g c :
  forward m ->
  forall fuel1 fuel2 x,
    length x < fuel1 -> length x < fuel2 ->
    repeatStar m g fuel1 x c = repeatStar m g fuel2 x c.
Proof.
  intros Hm. induction fuel1 as [|fuel1 IH]; intros fuel2 x H1 H2; [lia|].
  destruct fuel2 as [|fuel2]; [lia|]. rewrite !repeatStar_S.
  rewrite (Hm x (progress x (fun y => repeatStar m g fuel1 y c))
                (progress x (fun y => repeatStar m g fuel2 y c))); [reflexivity|].
  intros y Hy. apply progress_ext; [|exact Hy]. intros Hlt. apply IH; lia.
Qed.

Lemma orElse_Some a b w : orElse a b = Some w -> a = Some w \/ b = Some w.
Proof. destruct a; simpl; auto. Qed.

Lemma progress_Some x k y w :
  progress x k y = Some w -> length y <> length x /\ k y = Some w.
Proof.
  unfold progress. destruct (length y =? length x) eqn:E; [discriminate|].
  apply Nat.eqb_neq in E. auto.
Qed.

Lemma repeatStar_answers m g fuel : answers m -> answers (repeatStar m g fuel).
Proof.
  intros Hm. induction fuel as [|fuel IH]; intros x c w Hw; [simpl in Hw; eauto|].
  rewrite repeatStar_S in Hw.
  assert (Hcases :
    m x (progress x (fun y => repeatStar m g fuel y c)) = Some w \/ c x = Some w).
  { destruct g; apply orElse_Some in Hw; tauto. }
  destruct Hcases as [Hw' | Hw']; [|eauto].
  apply Hm in Hw' as (y & Hy & Hd). apply progress_Some in Hd as [_ Hd].
  apply IH in Hd as (z & Hz & Hc). exists z. split; [lia | exact Hc].
Qed.

Lemma repeatOpt_answers m g : answers m -> answers (repeatOpt m g).
Proof.
  intros Hm x c w Hw. unfold repeatOpt in Hw.
  assert (Hcases : m x (progress x c) = Some w \/ c x = Some w).
  { destruct g; apply orElse_Some in Hw; tauto. }
  destruct Hcases as [Hw' | Hw']; [|eauto].
  apply Hm in Hw' as (y & Hy & Hd). apply progress_Some in Hd as [_ Hd]. eauto.
Qed.

Lemma matcher_answers r : answers (matcher r).
Proof.
  induction r as [| a | | r1 IH1 r2 IH2 | r1 IH1 r2 IH2 | q g r1 IH1];
    intros x c w Hw; cbn [matcher] in Hw.
  - eauto.
  - destruct x as [|b x]; [discriminate|].
    destruct (Ascii.eqb a b); [|discriminate]. exists x. simpl. split; [lia | exact Hw].
  - destruct x as [|b x]; [discriminate|].
    destruct (isLineTerminator b); [discriminate|].
    exists x. simpl. split; [lia | exact Hw].
  - apply IH1 in Hw as (y & Hy & Hw). apply IH2 in Hw as (z & Hz & Hw).
    exists z. split; [lia | exact Hw].
  - apply orElse_Some in Hw as [Hw | Hw]; [now apply IH1 | now apply IH2].
  - destruct q.
    + now apply (repeatStar_answers _ _ _ IH1) in Hw.
    + apply IH1 in Hw as (y & Hy & Hw).
      apply (repeatStar_answers _ _ _ IH1) in Hw as (z & Hz & Hw).
      exists z. split; [lia | exact Hw].
    + now apply (repeatOpt_answers _ _ IH1) in Hw.
Qed.

(** A match ends no earlier than it starts. *)
Lemma matchHere_bound r x y : matchHere r x = Some y -> length y <= length x.
Proof.
  unfold matchHere. intros H.
  apply matcher_answers in H as (z & Hz & H). now injection H as <-.
Qed.

(** Likewise the scan of [countMatches] ends before its fuel does. *)
Lemma countMatches_fuel r :
  forall fuel1 fuel2 x,
    length x < fuel1 -> length x < fuel2 ->
    countMatches r fuel1 x = countMatches r fuel2 x.
Proof.
  induction fuel1 as [|fuel1 IH]; intros fuel2 x H1 H2; [lia|].
  destruct fuel2 as [|fuel2]; [lia|]. cbn [countMatches].
  destruct (matchHere r x) as [y|] eqn:Ey.
  - apply matchHere_bound in Ey.
    destruct (length y =? length x) eqn:E.
    + destruct x as [|b x]; [reflexivity|]. f_equal. apply IH; simpl in *; lia.
    + f_equal. apply Nat.eqb_neq in E. apply IH; lia.
  - destruct x as [|b x]; [reflexivity|]. apply IH; simpl in *; lia.
Qed.

End RepeatFuel.

(** ** Sorting by descending score *)

Section SortByScore.

Context {A : Type} (key : A -> nat).

Lemma insertByScore_In x l y : In y (insertByScore key x l) <-> y = x \/ In y l.
Proof.
  induction l as [|z l IH]; simpl.
  - intuition.
  - destruct (key z <=? key x); simpl; [intuition | rewrite IH; intuition].
Qed.

Lemma sortByScore_In l y : In y (sortByScore key l) <-> In y l.
Proof.
  induction l as [|x l IH]; simpl; [tauto|].
  rewrite insertByScore_In, IH. intuition.
Qed.

Lemma insertByScore_descending x l : descending key l -> descending key (insertByScore key x l).
Proof.
  unfold descending. induction 1 as [|z l Hl IH Hz]; simpl.
  - repeat constructor.
  - destruct (key z <=? key x) eqn:E.
    + apply Nat.leb_le in E. constructor; [now constructor|].
      constructor; [exact E|].
      rewrite List.Forall_forall in Hz |- *. intros y Hy. specialize (Hz y Hy). lia.
    + apply Nat.leb_gt in E. constructor; [exact IH|].
      rewrite List.Forall_forall in Hz |- *. intros y Hy.
      apply insertByScore_In in Hy as [-> | Hy]; [lia | auto].
Qed.

Lemma sortByScore_descending l : descending key (sortByScore key l).
Proof.
  induction l as [|x l IH]; simpl; [constructor|].
  now apply insertByScore_descending.
Qed.

(** Stability: the elements of one score keep their order. *)
Lemma insertByScore_same_score s x l :
  List.filter (fun a => key a =? s) (insertByScore key x l) =
  List.filter (fun a => key a =? s) (x :: l).
Proof.
  induction l as [|z l IH]; [reflexivity|].
  cbn [insertByScore]. destruct (key z <=? key x) eqn:E; [reflexivity|].
  apply Nat.leb_gt in E. cbn [List.filter] in *. rewrite IH.
  destruct (key x =? s) eqn:Ex, (key z =? s) eqn:Ez; try reflexivity.
  apply Nat.eqb_eq in Ex, Ez. lia.
Qed.

Lemma sortByScore_same_score s l :
  List.filter (fun a => key a =? s) (sortByScore key l) =
  List.filter (fun a => key a =? s) l.
Proof.
  induction l as [|x l IH]; [reflexivity|].
  cbn [sortByScore]. rewrite insertByScore_same_score. cbn [List.filter].
  now rewrite IH.
Qed.

End SortByScore.

Lemma insertByScore_ext {A} (k1 k2 : A -> nat) x l :
  (forall y, y = x \/ In y l -> k1 y = k2 y) ->
  insertByScore k1 x l = insertByScore k2 x l.
Proof.
  induction l as [|z l IH]; intros H; [reflexivity|]. simpl.
  rewrite (H x) by auto. rewrite (H z) by (right; now left).
  rewrite IH; [reflexivity|]. intros y [->|Hy]; apply H; simpl; auto.
Qed.

Lemma sortByScore_ext {A} (k1 k2 : A -> nat) l :
  (forall y, In y l -> k1 y = k2 y) -> sortByScore k1 l = sortByScore k2 l.
Proof.
  induction l as [|x l IH]; intros H; [reflexivity|]. simpl.
  rewrite IH by (intros; apply H; now right).
  apply insertByScore_ext. intros y [->|Hy]; apply H; [now left|].
  right. now apply sortByScore_In in Hy.
Qed.

Lemma insertByScore_map {A B} (f : A -> B) (key : B -> nat) x l :
  insertByScore key (f x) (map f l) = map f (insertByScore (fun a => key (f a)) x l).
Proof.
  induction l as [|z l IH]; [reflexivity|]. simpl.
  destruct (key (f z) <=? key (f x)); [reflexivity|]. simpl. now rewrite IH.
Qed.

Lemma sortByScore_map {A B} (f : A -> B) (key : B -> nat) l :
  sortByScore key (map f l) = map f (sortByScore (fun a => key (f a)) l).
Proof.
  induction l as [|x l IH]; [reflexivity|]. simpl.
  now rewrite IH, insertByScore_map.
Qed.

Lemma filter_map_commute {A B} (f : A -> B) (p : B -> bool) l :
  List.filter p (map f l) = map f (List.filter (fun a => p (f a)) l).
Proof.
  induction l as [|x l IH]; [reflexivity|]. simpl.
  destruct (p (f x)); simpl; now rewrite IH.
Qed.

(** ** Running the array methods on the heap *)

Lemma bind_run {A B} (m : M A) (k : A -> M B) h a h' :
  m h = Normal (a, h') -> bind m k h = k a h'.
Proof. intros E. unfold bind. now rewrite E. Qed.

Lemma bind_throw {A B} (m : M A) (k : A -> M B) h e :
  m h = Throw e -> bind m k h = Throw e.
Proof. intros E. unfold bind. now rewrite E. Qed.

Lemma bind_unsupported {A B} (m : M A) (k : A -> M B) h :
  m h = Unsupported -> bind m k h = Unsupported.
Proof. intros E. unfold bind. now rewrite E. Qed.

Lemma getArray_run H a l : H !! a = Some (OArray l) -> getArray a H = Normal (l, H).
Proof. intros E. unfold getArray. now rewrite E. Qed.

Lemma holdsItems_app H ext view l : holdsItems H view l -> holdsItems (H ++ ext) view l.
Proof. intros Hh i Hi. apply lookup_app_l_Some. now apply Hh. Qed.

Lemma holdsItems_incl H view l l' :
  (forall i, In i l' -> In i l) -> holdsItems H view l -> holdsItems H view l'.
Proof. intros Hsub Hh i Hi. apply Hh. now apply Hsub. Qed.

Lemma itemScore_run H view l i :
  holdsItems H view l -> In i l -> itemScore i H = Normal (snd (view i), H).
Proof.
  intros Hh Hi. unfold itemScore, bind, getItem. now rewrite (Hh i Hi).
Qed.

Lemma itemResource_run H view l i :
  holdsItems H view l -> In i l -> itemResource i H = Normal (fst (view i), H).
Proof.
  intros Hh Hi. unfold itemResource, bind, getItem. now rewrite (Hh i Hi).
Qed.

Lemma filterM_run H view l :
  holdsItems H view l ->
  filterM (fun item => let* score := itemScore item in ret (0 <? score)) l H =
  Normal (List.filter (fun i => 0 <? snd (view i)) l, H).
Proof.
  induction l as [|i l IH]; intros Hh; [reflexivity|].
  cbn [filterM List.filter]. unfold bind at 1 2.
  rewrite (itemScore_run H view (i :: l) i Hh) by now left.
  unfold ret at 1. unfold bind at 1.
  rewrite IH by (intros j Hj; apply Hh; now right).
  unfold ret. now destruct (0 <? snd (view i)).
Qed.

Lemma compare_scores (a b : nat) : (Z.of_nat b - Z.of_nat a <=? 0)%Z = (b <=? a).
Proof.
  destruct (b <=? a) eqn:E.
  - apply Nat.leb_le in E. apply Z.leb_le. lia.
  - apply Nat.leb_gt in E. apply Z.leb_gt. lia.
Qed.

Lemma byScore_run H view l a b :
  holdsItems H view l -> In a l -> In b l ->
  byScore a b H = Normal ((Z.of_nat (snd (view b)) - Z.of_nat (snd (view a)))%Z, H).
Proof.
  intros Hh Ha Hb. unfold byScore, bind.
  rewrite (itemScore_run H view l a Hh Ha), (itemScore_run H view l b Hh Hb).
  reflexivity.
Qed.

Lemma insertM_run H view l0 x l :
  holdsItems H view l0 -> In x l0 -> (forall y, In y l -> In y l0) ->
  insertM byScore x l H = Normal (insertByScore (fun i => snd (view i)) x l, H).
Proof.
  intros Hh Hx. induction l as [|y l IH]; intros Hl; [reflexivity|].
  cbn [insertM insertByScore]. unfold bind at 1.
  rewrite (byScore_run H view l0 x y Hh Hx) by (apply Hl; now left).
  rewrite compare_scores. destruct (snd (view y) <=? snd (view x)); [reflexivity|].
  unfold bind. rewrite IH by (intros z Hz; apply Hl; now right). reflexivity.
Qed.

Lemma sortM_run H view l0 l :
  holdsItems H view l0 -> (forall y, In y l -> In y l0) ->
  sortM byScore l H = Normal (sortByScore (fun i => snd (view i)) l, H).
Proof.
  intros Hh. induction l as [|x l IH]; intros Hl; [reflexivity|].
  cbn [sortM sortByScore]. unfold bind.
  rewrite IH by (intros z Hz; apply Hl; now right).
  apply (insertM_run H view l0); [exact Hh | apply Hl; now left |].
  intros y Hy. apply sortByScore_In in Hy. apply Hl. now right.
Qed.

Lemma mapM_itemResource_run H view l :
  holdsItems H view l ->
  mapM itemResource l H = Normal (map (fun i => fst (view i)) l, H).
Proof.
  induction l as [|i l IH]; intros Hh; [reflexivity|].
  cbn [mapM map]. unfold bind at 1.
  rewrite (itemResource_run H view (i :: l) i Hh) by now left.
  unfold bind. rewrite IH by (intros j Hj; apply Hh; now right). reflexivity.
Qed.

Lemma Array_filter_run H view a l :
  H !! a = Some (OArray l) -> holdsItems H view l ->
  Array_filter (fun item => let* score := itemScore item in ret (0 <? score)) a H =
  Normal (length H, H ++ [OArray (List.filter (fun i => 0 <? snd (view i)) l)]).
Proof.
  intros Ha Hh. unfold Array_filter.
  rewrite (bind_run _ _ _ _ _ (getArray_run H a l Ha)).
  now rewrite (bind_run _ _ _ _ _ (filterM_run H view l Hh)).
Qed.

Lemma Array_sort_run H view a l :
  H !! a = Some (OArray l) -> holdsItems H view l ->
  Array_sort byScore a H =
  Normal (a, <[a := OArray (sortByScore (fun i => snd (view i)) l)]> H).
Proof.
  intros Ha Hh. unfold Array_sort.
  rewrite (bind_run _ _ _ _ _ (getArray_run H a l Ha)).
  now rewrite (bind_run _ _ _ _ _ (sortM_run H view l l Hh (fun y Hy => Hy))).
Qed.

Lemma Array_map_itemResource_run H view a l :
  H !! a = Some (OArray l) -> holdsItems H view l ->
  Array_map itemResource a H =
  Normal (length H, H ++ [OArray (map (fun i => fst (view i)) l)]).
Proof.
  intros Ha Hh. unfold Array_map.
  rewrite (bind_run _ _ _ _ _ (getArray_run H a l Ha)).
  now rewrite (bind_run _ _ _ _ _ (mapM_itemResource_run H view l Hh)).
Qed.

Lemma scoring_run ql qt sc ls : forall H,
  scoredBy H ql qt sc ls ->
  mapM (scoring ql qt) ls H =
  Normal (seq (length H) (length ls), H ++ map (fun l => OItem l (sc l)) ls).
Proof.
  induction ls as [|l ls IH]; intros H Hs.
  - simpl. unfold ret. now rewrite app_nil_r.
  - cbn [mapM]. unfold bind at 1. unfold scoring at 1. unfold bind at 1 2.
    destruct (Hs l) as (r & Hr & Hsc); [now left|].
    unfold getResource. rewrite Hr. unfold lift. rewrite Hsc. cbn [cbind].
    unfold alloc at 1. unfold bind. rewrite IH.
    + unfold ret. rewrite length_app. cbn [length map seq].
      rewrite Nat.add_1_r, <- app_assoc. reflexivity.
    + intros l' Hl'. destruct (Hs l') as (r' & Hr' & Hsc'); [now right|].
      exists r'. split; [now apply lookup_app_l_Some | exact Hsc'].
Qed.

Lemma scoring_run_inv ql qt ls : forall H out H',
  (forall l, In l ls -> exists r, H !! l = Some (OResource r)) ->
  mapM (scoring ql qt) ls H = Normal (out, H') ->
  forall l, In l ls ->
    exists r s, H !! l = Some (OResource r) /\ scoreResource ql qt r = Normal s.
Proof.
  induction ls as [|l ls IH]; intros H out H' Hwf Hrun l0 Hl0; [destruct Hl0|].
  cbn [mapM] in Hrun. unfold bind at 1 in Hrun. unfold scoring at 1 in Hrun.
  unfold bind at 1 2 in Hrun.
  destruct (Hwf l) as (r & Hr); [now left|].
  unfold getResource in Hrun. rewrite Hr in Hrun. unfold lift in Hrun.
  destruct (scoreResource ql qt r) as [s| |] eqn:Hsc; cbn [cbind] in Hrun;
    try discriminate.
  unfold alloc at 1 in Hrun. unfold bind in Hrun.
  destruct (mapM (scoring ql qt) ls (H ++ [OItem l s])) as [[out1 H1]| |] eqn:Hrest;
    try discriminate.
  destruct Hl0 as [<- | Hl0]; [eauto|].
  destruct (Hwf l0) as (r0 & Hr0); [now right|].
  assert (Hwf' : forall l', In l' ls ->
            exists r', (H ++ [OItem l s]) !! l' = Some (OResource r')).
  { intros l' Hl'. destruct (Hwf l') as (r' & Hr'); [now right|].
    exists r'. now apply lookup_app_l_Some. }
  destruct (IH _ _ _ Hwf' Hrest l0 Hl0) as (r1 & s1 & Hr1 & Hs1).
  rewrite (lookup_app_l_Some _ _ _ _ Hr0) in Hr1. injection Hr1 as <-. eauto.
Qed.

(** ** The run of a search *)

Lemma searchAhaResources_unfold a query :
  searchAhaResources a query =
  if blank query then alloc (OArray [])
  else
    let* scoredResources :=
      Array_map (scoring (queryLowerOf query) (queryTermsOf query)) a in
    let* filtered :=
      Array_filter (fun item =>
        let* score := itemScore item in ret (0 <? score)) scoredResources in
    let* sorted := Array_sort byScore filtered in
    Array_map itemResource sorted.
Proof. reflexivity. Qed.

Lemma map_lookup_nth {A B} (f : A -> B) (d : A) (l : list A) : forall j,
  j < length l -> map f l !! j = Some (f (nth j l d)).
Proof.
  induction l as [|x l IH]; intros j Hj; simpl in Hj; [lia|].
  destruct j as [|j]; [reflexivity|]. simpl. apply IH. lia.
Qed.

Lemma map_nth_seq {A} (d : A) (l : list A) : forall n0,
  map (fun i => nth (i - n0) l d) (seq n0 (length l)) = l.
Proof.
  induction l as [|x l IH]; intros n0; [reflexivity|].
  cbn [length seq map]. rewrite Nat.sub_diag. cbn [nth]. f_equal.
  rewrite <- (IH (S n0)) at 2. apply map_ext_in. intros i Hi.
  apply in_seq in Hi. replace (i - n0) with (S (i - S n0)) by lia. reflexivity.
Qed.

Lemma items_held h sc ls ext :
  holdsItems ((h ++ map (fun l => OItem l (sc l)) ls) ++ ext)
    (itemView (length h) sc ls) (seq (length h) (length ls)).
Proof.
  intros i Hi. apply in_seq in Hi. apply lookup_app_l_Some.
  rewrite lookup_app_r by lia.
  rewrite (map_lookup_nth (A:=loc) _ 0) by lia. reflexivity.
Qed.

Lemma Array_map_scoring_run h a ls ql qt sc :
  h !! a = Some (OArray ls) -> scoredBy h ql qt sc ls ->
  Array_map (scoring ql qt) a h =
  Normal (length (h ++ map (fun l => OItem l (sc l)) ls),
          (h ++ map (fun l => OItem l (sc l)) ls) ++
          [OArray (seq (length h) (length ls))]).
Proof.
  intros Ha Hs. unfold Array_map.
  rewrite (bind_run _ _ _ _ _ (getArray_run h a ls Ha)).
  now rewrite (bind_run _ _ _ _ _ (scoring_run ql qt sc ls h Hs)).
Qed.

Lemma ranked_view n0 sc ls :
  let view := itemView n0 sc ls in
  map (fun i => fst (view i))
    (sortByScore (fun i => snd (view i))
       (List.filter (fun i => 0 <? snd (view i)) (seq n0 (length ls)))) =
  ranked sc ls.
Proof.
  cbv zeta. unfold itemView. cbn [fst snd].
  rewrite <- (sortByScore_map (fun i => nth (i - n0) ls 0) sc).
  rewrite <- (filter_map_commute (fun i => nth (i - n0) ls 0) (fun l => 0 <? sc l)).
  now rewrite map_nth_seq.
Qed.

(** A search on a non-blank query whose scores are all computed allocates
    the items, the array of them, the array of the items kept (sorted in
    place) and the result; the heap it started from is a prefix of the
    final one. *)
Lemma search_run h a ls query sc :
  h !! a = Some (OArray ls) ->
  scoredBy h (queryLowerOf query) (queryTermsOf query) sc ls ->
  blank query = false ->
  exists ext,
    searchAhaResources a query h =
    Normal (length (h ++ ext), (h ++ ext) ++ [OArray (ranked sc ls)]).
Proof.
  intros Ha Hs Hb. rewrite searchAhaResources_unfold, Hb.
  set (H1 := h ++ map (fun l => OItem l (sc l)) ls).
  set (view := itemView (length h) sc ls).
  set (ids := seq (length h) (length ls)).
  set (kept := List.filter (fun i => 0 <? snd (view i)) ids).
  set (sorted := sortByScore (fun i => snd (view i)) kept).
  assert (Hkept : forall i, In i kept -> In i ids).
  { intros i Hi. now apply filter_In in Hi as [Hi _]. }
  assert (Hsorted : forall i, In i sorted -> In i ids).
  { intros i Hi. apply sortByScore_In in Hi. auto. }
  exists (map (fun l => OItem l (sc l)) ls ++ [OArray ids; OArray sorted]).
  rewrite (bind_run _ _ _ _ _ (Array_map_scoring_run h a ls _ _ sc Ha Hs)).
  fold H1 ids.
  rewrite (bind_run _ _ _ _ _
             (Array_filter_run (H1 ++ [OArray ids]) view (length H1) ids
                (list_lookup_middle _ _ _ _ eq_refl) (items_held h sc ls _))).
  fold kept.
  rewrite (bind_run _ _ _ _ _
             (Array_sort_run ((H1 ++ [OArray ids]) ++ [OArray kept]) view
                (length (H1 ++ [OArray ids])) kept
                (list_lookup_middle _ _ _ _ eq_refl)
                (holdsItems_incl _ _ _ _ Hkept
                   (holdsItems_app _ _ _ _ (items_held h sc ls _))))).
  fold sorted.
  rewrite insert_app_r_alt by lia. rewrite Nat.sub_diag. cbn [insert list_insert].
  rewrite (Array_map_itemResource_run ((H1 ++ [OArray ids]) ++ [OArray sorted]) view
             (length (H1 ++ [OArray ids])) sorted
             (list_lookup_middle _ _ _ _ eq_refl)
             (holdsItems_incl _ _ _ _ Hsorted
                (holdsItems_app _ _ _ _ (items_held h sc ls _)))).
  unfold sorted, kept, ids, view. rewrite ranked_view.
  unfold H1. repeat rewrite <- app_assoc. reflexivity.
Qed.

(** On a blank query the search allocates the empty result and nothing
    else. *)
Lemma search_run_blank h a query :
  blank query = true ->
  searchAhaResources a query h = Normal (length h, h ++ [OArray []]).
Proof. intros Hb. now rewrite searchAhaResources_unfold, Hb. Qed.

(** A search that returns has either seen a blank query or scored every
    resource of the collection. *)
Lemma search_normal_inv h a ls query out h' :
  collection h a ls ->
  searchAhaResources a query h = Normal (out, h') ->
  (blank query = true /\ out = length h /\ h' = h ++ [OArray []]) \/
  (blank query = false /\
   scoredBy h (queryLowerOf query) (queryTermsOf query) (scoreOf h query) ls /\
   exists ext, out = length (h ++ ext) /\
               h' = (h ++ ext) ++ [OArray (ranked (scoreOf h query) ls)]).
Proof.
  intros [Ha Hwf] Hrun. destruct (blank query) eqn:Hb.
  - left. rewrite (search_run_blank h a query Hb) in Hrun.
    injection Hrun as <- <-. auto.
  - right. split; [reflexivity|].
    assert (Hs : scoredBy h (queryLowerOf query) (queryTermsOf query)
                   (scoreOf h query) ls).
    { destruct (mapM (scoring (queryLowerOf query) (queryTermsOf query)) ls h)
        as [[o1 h1]| |] eqn:Hm.
      - intros l Hl.
        destruct (scoring_run_inv _ _ _ _ _ _ Hwf Hm l Hl) as (r & s & Hr & Hsc).
        exists r. split; [exact Hr|]. unfold scoreOf. now rewrite Hr, Hsc.
      - exfalso. rewrite searchAhaResources_unfold, Hb in Hrun.
        rewrite bind_throw with (e := e) in Hrun; [discriminate|].
        unfold Array_map. rewrite (bind_run _ _ _ _ _ (getArray_run h a ls Ha)).
        now apply bind_throw.
      - exfalso. rewrite searchAhaResources_unfold, Hb in Hrun.
        rewrite bind_unsupported in Hrun; [discriminate|].
        unfold Array_map. rewrite (bind_run _ _ _ _ _ (getArray_run h a ls Ha)).
        now apply bind_unsupported. }
    split; [exact Hs|].
    destruct (search_run h a ls query _ Ha Hs Hb) as [ext Hext].
    rewrite Hext in Hrun. injection Hrun as <- <-. eauto.
Qed.

(** ** C4, C5, C7: the result of a search *)

Lemma filter_filter_implied {A} (p q : A -> bool) (l : list A) :
  (forall x, p x = true -> q x = true) ->
  List.filter p (List.filter q l) = List.filter p l.
Proof.
  intros Hpq. induction l as [|x l IH]; [reflexivity|]. simpl.
  destruct (q x) eqn:Eq; simpl.
  - now rewrite IH.
  - destruct (p x) eqn:Ep; [|exact IH].
    rewrite (Hpq x Ep) in Eq. discriminate.
Qed.

Lemma collection_load docs :
  collection (fst (load docs)) (snd (load docs)) (seq 0 (length docs)).
Proof.
  unfold load, collection. cbn [fst snd]. split.
  - apply list_lookup_middle. now rewrite length_map.
  - intros l Hl. apply in_seq in Hl. exists (nth l docs strokeDoc).
    apply lookup_app_l_Some. apply map_lookup_nth. lia.
Qed.

(** C5: on the empty query and on a query of white space only, the search
    returns a fresh empty array, whatever the heap holds: nothing is read,
    no item is allocated, so no document is scored; on a loaded collection
    the result is the empty sequence. *)
Theorem C5_blank_query_yields_empty (h : heap) (resources : loc) (query : t) :
  forallb isWhiteSpace query = true ->
  searchAhaResources resources query h = Normal (length h, h ++ [OArray []]) /\
  forall docs, searchOn docs query = Normal [].
Proof.
  intros Hws.
  assert (Hb : blank query = true).
  { unfold blank. rewrite (trim_blank query Hws). apply orb_true_r. }
  split; [now apply search_run_blank|].
  intros docs. unfold searchOn. destruct (load docs) as [h0 a0].
  rewrite (bind_run _ _ _ _ _ (search_run_blank h0 a0 query Hb)).
  unfold getResources.
  rewrite (bind_run _ _ _ _ _
             (getArray_run _ _ _ (list_lookup_middle h0 [] _ _ eq_refl))).
  reflexivity.
Qed.

Lemma C5_blank_query_witness :
  searchAhaResources 3 (str "   ") (fst (load exampleDocs)) =
    Normal (length (fst (load exampleDocs)), fst (load exampleDocs) ++ [OArray []]) /\
  forall docs, searchOn docs (str "   ") = Normal [].
Proof.
  apply (C5_blank_query_yields_empty (fst (load exampleDocs)) 3 (str "   ")).
  reflexivity.
Defined.

(** C7: every reference in the array a search returns is a reference of the
    input collection, and the search changes no object that existed before
    it: the collection array holds the same references in the same order
    and every resource keeps its fields. *)
Theorem C7_output_from_input_heap_preserved
  (h : heap) (a : loc) (ls : list loc) (query : t) (out : loc) (h' : heap) :
  collection h a ls ->
  searchAhaResources a query h = Normal (out, h') ->
  (exists outl, h' !! out = Some (OArray outl) /\ forall l, In l outl -> In l ls) /\
  (forall l o, h !! l = Some o -> h' !! l = Some o) /\
  collection h' a ls.
Proof.
  intros Hc Hrun.
  assert (Hext : exists ext outl,
             h' = h ++ ext /\ h' !! out = Some (OArray outl) /\
             forall l, In l outl -> In l ls).
  { destruct (search_normal_inv h a ls query out h' Hc Hrun)
      as [(_ & -> & ->) | (_ & _ & ext & -> & ->)].
    - exists [OArray []], []. split; [reflexivity|]. split; [|intros l []].
      now apply list_lookup_middle.
    - exists (ext ++ [OArray (ranked (scoreOf h query) ls)]),
        (ranked (scoreOf h query) ls).
      split; [now rewrite app_assoc|]. split; [now apply list_lookup_middle|].
      intros l Hl. unfold ranked in Hl. apply sortByScore_In in Hl.
      now apply filter_In in Hl as [Hl _]. }
  destruct Hext as (ext & outl & -> & Hout & Hin).
  assert (Hframe : forall l o, h !! l = Some o -> (h ++ ext) !! l = Some o)
    by (intros l o; apply lookup_app_l_Some).
  split; [eauto|]. split; [exact Hframe|].
  destruct Hc as [Ha Hwf]. split; [now apply Hframe|].
  intros l Hl. destruct (Hwf l Hl) as [r Hr]. exists r. now apply Hframe.
Qed.

Lemma C7_output_from_input_witness :
  let h := fst (load exampleDocs) in
  let res := returned (searchAhaResources 3 (str "heart") h) in
  (exists outl, snd res !! fst res = Some (OArray outl) /\
                forall l, In l outl -> In l [0; 1; 2]) /\
  (forall l o, h !! l = Some o -> snd res !! l = Some o) /\
  collection (snd res) 3 [0; 1; 2].
Proof.
  cbv zeta.
  apply (C7_output_from_input_heap_preserved
           (fst (load exampleDocs)) 3 [0; 1; 2] (str "heart")).
  - split; [reflexivity|]. intros l Hl. simpl in Hl.
    destruct Hl as [<- | [<- | [<- | []]]]; eexists; reflexivity.
  - vm_compute. reflexivity.
Defined.

(** C4: the array a search returns on a query that is not blank holds
    exactly the references of the collection whose score is positive, in
    descending order of score, and for each score the references of that
    score stand in the order of the collection; every score of the
    collection is computed.  On a blank query no score is computed and the
    array is empty. *)
Theorem C4_output_positive_descending_stable
  (h : heap) (a : loc) (ls : list loc) (query : t) (out : loc) (h' : heap) :
  collection h a ls ->
  searchAhaResources a query h = Normal (out, h') ->
  exists outl,
    h' !! out = Some (OArray outl) /\
    (blank query = true -> outl = []) /\
    (blank query = false ->
       scoredBy h (queryLowerOf query) (queryTermsOf query) (scoreOf h query) ls /\
       (forall l, In l outl <-> In l ls /\ 0 < scoreOf h query l) /\
       descending (scoreOf h query) outl /\
       (forall s, 0 < s ->
          List.filter (fun l => scoreOf h query l =? s) outl =
          List.filter (fun l => scoreOf h query l =? s) ls)).
Proof.
  intros Hc Hrun.
  destruct (search_normal_inv h a ls query out h' Hc Hrun)
    as [(Hb & -> & ->) | (Hb & Hs & ext & -> & ->)].
  - exists []. split; [now apply list_lookup_middle|].
    split; [reflexivity | congruence].
  - exists (ranked (scoreOf h query) ls).
    split; [now apply list_lookup_middle|]. split; [congruence|].
    intros _. split; [exact Hs|]. unfold ranked. split; [|split].
    + intros l. rewrite sortByScore_In, filter_In, Nat.ltb_lt. reflexivity.
    + apply sortByScore_descending.
    + intros s Hpos. rewrite sortByScore_same_score.
      apply filter_filter_implied. intros l Hl.
      apply Nat.eqb_eq in Hl. apply Nat.ltb_lt. lia.
Qed.

Lemma C4_output_witness :
  let h := fst (load exampleDocs) in
  let res := returned (searchAhaResources 3 (str "heart") h) in
  exists outl,
    snd res !! fst res = Some (OArray outl) /\
    (blank (str "heart") = true -> outl = []) /\
    (blank (str "heart") = false ->
       scoredBy h (queryLowerOf (str "heart")) (queryTermsOf (str "heart"))
         (scoreOf h (str "heart")) [0; 1; 2] /\
       (forall l, In l outl <-> In l [0; 1; 2] /\ 0 < scoreOf h (str "heart") l) /\
       descending (scoreOf h (str "heart")) outl /\
       (forall s, 0 < s ->
          List.filter (fun l => scoreOf h (str "heart") l =? s) outl =
          List.filter (fun l => scoreOf h (str "heart") l =? s) [0; 1; 2])).
Proof.
  cbv zeta.
  apply (C4_output_positive_descending_stable
           (fst (load exampleDocs)) 3 [0; 1; 2] (str "heart")).
  - split; [reflexivity|]. intros l Hl. simpl in Hl.
    destruct Hl as [<- | [<- | [<- | []]]]; eexists; reflexivity.
  - vm_compute. reflexivity.
Defined.

(** ** The components of a score *)

Lemma termStep_acc text score term :
  termStep text score term =
  cbind (termStep text 0 term) (fun n => Normal (score + n)).
Proof.
  unfold termStep. destruct (2 <? length term); cbn [cbind].
  - destruct (RegExp.matchCount term text); reflexivity.
  - now rewrite Nat.add_0_r.
Qed.

Lemma forEachTerm_acc text queryTerms : forall score,
  forEachTerm text queryTerms score =
  cbind (forEachTerm text queryTerms 0) (fun n => Normal (score + n)).
Proof.
  induction queryTerms as [|term rest IH]; intros score; cbn [forEachTerm cbind].
  - now rewrite Nat.add_0_r.
  - rewrite (termStep_acc text score term).
    destruct (termStep text 0 term) as [n| |]; cbn [cbind]; try reflexivity.
    rewrite (IH (score + n)), (IH n).
    destruct (forEachTerm text rest 0); cbn [cbind]; try reflexivity.
    now rewrite Nat.add_assoc.
Qed.

(** A score is the sum of its five components. *)
Lemma scoreResource_components queryLower queryTerms r :
  scoreResource queryLower queryTerms r =
  cbind (termFrequency (searchableText r) queryTerms) (fun tf =>
  Normal (phraseBonus queryLower r + titleBonus queryLower r +
          keywordScore queryLower queryTerms r + tf + categoryBonus queryLower r)).
Proof.
  unfold scoreResource, termFrequency, phraseBonus, titleBonus, keywordScore,
    categoryBonus.
  rewrite forEachTerm_acc.
  destruct (forEachTerm (searchableText r) queryTerms 0) as [tf| |];
    cbn [cbind]; try reflexivity.
  destruct (includes (searchableText r) queryLower),
    (includes (toLowerCase (title r)) queryLower),
    (includes (toLowerCase (category r)) queryLower),
    (keywords r); cbn [Nat.add]; f_equal; lia.
Qed.

Lemma termStep_short text score term :
  length term <= 2 -> termStep text score term = Normal score.
Proof.
  intros H. unfold termStep.
  destruct (2 <? length term) eqn:E; [|reflexivity].
  apply Nat.ltb_lt in E. lia.
Qed.

(** ** C1, C2, C3: evaluations *)

Example literalOccurrences_overlap : literalOccurrences (str "aa") (str "aaaaa") = 2.
Proof. reflexivity. Qed.

Lemma scoreResource_unbalanced r :
  scoreResource (queryLowerOf unbalancedQuery) (queryTermsOf unbalancedQuery) r =
  Throw SyntaxError.
Proof.
  rewrite scoreResource_components. unfold termFrequency.
  replace (queryTermsOf unbalancedQuery)
    with [str "heart"; str "attack"; str "(symptoms"] by (vm_compute; reflexivity).
  assert (Hok : forall p, p = str "heart" \/ p = str "attack" ->
            forall s, exists s', termStep (searchableText r) s p = Normal s').
  { intros p Hp s. unfold termStep, RegExp.matchCount.
    destruct (RegExp.compile p) as [re| |] eqn:E.
    - cbn [cbind]. destruct (2 <? length p); eauto.
    - destruct Hp as [-> | ->]; vm_compute in E; discriminate.
    - destruct Hp as [-> | ->]; vm_compute in E; discriminate. }
  cbn [forEachTerm].
  destruct (Hok (str "heart") (or_introl eq_refl) 0) as [s1 ->]. cbn [cbind].
  destruct (Hok (str "attack") (or_intror eq_refl) s1) as [s2 ->]. cbn [cbind].
  unfold termStep, RegExp.matchCount.
  replace (RegExp.compile (str "(symptoms")) with (@Throw RegExp.regex SyntaxError)
    by (vm_compute; reflexivity).
  reflexivity.
Qed.

(** C1 (the code departs from it): on a query with a term longer than two
    characters that is not a well-formed pattern, here one with an open
    parenthesis, the search throws a SyntaxError on every collection that
    is not empty. *)
Theorem C1_search_throws_on_open_parenthesis (d : resource) (docs : list resource) :
  searchOn (d :: docs) unbalancedQuery = Throw SyntaxError.
Proof.
  unfold searchOn.
  destruct (collection_load (d :: docs)) as [Ha _].
  destruct (load (d :: docs)) as [h a] eqn:El. cbn [fst snd] in Ha.
  assert (H0 : h !! 0 = Some (OResource d)).
  { unfold load in El. injection El as <- _. reflexivity. }
  rewrite (bind_throw _ _ _ SyntaxError); [reflexivity|].
  rewrite searchAhaResources_unfold.
  replace (blank unbalancedQuery) with false by (vm_compute; reflexivity).
  apply bind_throw. unfold Array_map.
  rewrite (bind_run _ _ _ _ _ (getArray_run _ _ _ Ha)).
  apply bind_throw. cbn [length seq mapM]. apply bind_throw.
  unfold scoring. unfold getResource.
  rewrite (bind_run _ _ h d h) by (now rewrite H0).
  apply bind_throw. unfold lift. now rewrite scoreResource_unbalanced.
Qed.

(** C2, as the specification states it, fails: the score is not 180. *)
Lemma C2_score_is_not_180 :
  scoreResource (queryLowerOf heartAttackQuery) (queryTermsOf heartAttackQuery)
    (heartAttackDoc [] None) <> Normal 180.
Proof. vm_compute. discriminate. Qed.

(** C2, amended: the query "heart attack" scores the document 200 (100 for
    the phrase, 50 for the title, 30 for the keyword "heart attack" and 5
    for each of the two occurrences of "heart" and of "attack"), whatever
    its identifier and URL, and the search returns it alone. *)
Theorem C2_heart_attack_scores_200 (i : t) (u : option t) :
  scoreResource (queryLowerOf heartAttackQuery) (queryTermsOf heartAttackQuery)
    (heartAttackDoc i u) = Normal 200 /\
  termFrequency (searchableText (heartAttackDoc i u)) (queryTermsOf heartAttackQuery)
    = Normal 20 /\
  searchOn [heartAttackDoc i u] heartAttackQuery = Normal [heartAttackDoc i u].
Proof. repeat split; vm_compute; reflexivity. Qed.

(** C3 (the code departs from it): a term is compiled as a pattern.  The
    term "dr." does not occur in the text of the stroke document, yet the
    pattern matches in "drooping" and adds 5; the search returns the
    document for it.  The term "c++" is no pattern at all. *)
Theorem C3_term_is_read_as_pattern :
  literalOccurrences (str "dr.") (searchableText strokeDoc) = 0 /\
  termFrequency (searchableText strokeDoc) (queryTermsOf (str "dr.")) = Normal 5 /\
  searchOn [strokeDoc] (str "dr.") = Normal [strokeDoc] /\
  termFrequency (searchableText strokeDoc) (queryTermsOf (str "c++")) =
    Throw SyntaxError.
Proof. repeat split; vm_compute; reflexivity. Qed.

(** ** When scoring returns *)

Lemma termStep_normal_inv text score term n :
  termStep text score term = Normal n ->
  2 < length term -> exists re, RegExp.compile term = Normal re.
Proof.
  unfold termStep, RegExp.matchCount. intros H Hlen.
  apply Nat.ltb_lt in Hlen. rewrite Hlen in H.
  destruct (RegExp.compile term) as [re| |]; [eauto | discriminate..].
Qed.

Lemma termStep_compiles text score term :
  (2 < length term -> exists re, RegExp.compile term = Normal re) ->
  exists n, termStep text score term = Normal n.
Proof.
  unfold termStep, RegExp.matchCount. intros H.
  destruct (2 <? length term) eqn:E; [|eauto].
  apply Nat.ltb_lt in E. destruct (H E) as [re ->]. cbn [cbind]. eauto.
Qed.

Lemma termFrequency_normal_inv text queryTerms n :
  termFrequency text queryTerms = Normal n -> termsCompile queryTerms.
Proof.
  unfold termFrequency. generalize 0 as score. revert n.
  induction queryTerms as [|term rest IH]; intros n score H term' Hin Hlen;
    [destruct Hin|].
  cbn [forEachTerm] in H.
  destruct (termStep text score term) as [s| |] eqn:E; cbn [cbind] in H;
    try discriminate.
  destruct Hin as [<- | Hin].
  - exact (termStep_normal_inv _ _ _ _ E Hlen).
  - exact (IH _ _ H term' Hin Hlen).
Qed.

Lemma termFrequency_compiles text queryTerms :
  termsCompile queryTerms -> exists n, termFrequency text queryTerms = Normal n.
Proof.
  unfold termFrequency. generalize 0 as score.
  induction queryTerms as [|term rest IH]; intros score H; cbn [forEachTerm].
  - eauto.
  - destruct (termStep_compiles text score term) as [s ->].
    + intros Hlen. apply H; [now left | exact Hlen].
    + cbn [cbind]. apply IH. intros term' Hin. apply H. now right.
Qed.

(** Scoring returns for every resource as soon as the terms compile. *)
Lemma scoreResource_compiles queryLower queryTerms r :
  termsCompile queryTerms -> exists s, scoreResource queryLower queryTerms r = Normal s.
Proof.
  intros H. rewrite scoreResource_components.
  destruct (termFrequency_compiles (searchableText r) queryTerms H) as [tf ->].
  cbn [cbind]. eauto.
Qed.

(** The search returns on every collection as soon as the terms compile. *)
Lemma search_returns h a ls query :
  collection h a ls -> blank query = false -> termsCompile (queryTermsOf query) ->
  scoredBy h (queryLowerOf query) (queryTermsOf query) (scoreOf h query) ls /\
  exists ext,
    searchAhaResources a query h =
    Normal (length (h ++ ext), (h ++ ext) ++ [OArray (ranked (scoreOf h query) ls)]).
Proof.
  intros [Ha Hwf] Hb Hc.
  assert (Hs : scoredBy h (queryLowerOf query) (queryTermsOf query)
                 (scoreOf h query) ls).
  { intros l Hl. destruct (Hwf l Hl) as [r Hr]. exists r. split; [exact Hr|].
    destruct (scoreResource_compiles (queryLowerOf query) _ r Hc) as [s Hsc].
    unfold scoreOf. now rewrite Hr, Hsc. }
  split; [exact Hs|]. exact (search_run h a ls query _ Ha Hs Hb).
Qed.

Lemma descending_after {A} (key : A -> nat) (l1 l2 : list A) (x y : A) :
  descending key (l1 ++ x :: l2) -> In y l2 -> key y <= key x.
Proof.
  unfold descending. induction l1 as [|z l1 IH]; simpl; intros H Hy.
  - apply StronglySorted_inv in H as [_ H].
    rewrite List.Forall_forall in H. now apply H.
  - apply StronglySorted_inv in H as [H _]. now apply IH.
Qed.

(** ** C8, C9, C10: the components *)

Lemma filter_length_le {A} (p q : A -> bool) (l : list A) :
  (forall x, In x l -> p x = true -> q x = true) ->
  length (List.filter p l) <= length (List.filter q l).
Proof.
  induction l as [|x l IH]; intros H; [reflexivity|]. simpl.
  assert (IH' := IH (fun y Hy => H y (or_intror Hy))).
  destruct (p x) eqn:Ep.
  - rewrite (H x (or_introl eq_refl) Ep). simpl. lia.
  - destruct (q x); simpl; lia.
Qed.

(** C8: a query term of at most two characters that lies in [k] keywords
    of a document (lower-cased) makes each of them a keyword match: the
    keyword component is at least [30 * k], and exactly [30 * k] when no
    keyword matches otherwise, so the score is at least [30 * k]; the same
    term adds nothing in the term-frequency pass. *)
Theorem C8_short_term_counts_in_keywords
  (r : resource) (kws : list t) (queryLower : t) (queryTerms : list t) (term : t) :
  keywords r = Some kws -> In term queryTerms -> length term <= 2 ->
  let k := length (List.filter (fun kw => includes (toLowerCase kw) term) kws) in
  k * 30 <= keywordScore queryLower queryTerms r /\
  ((forall kw, In kw kws -> keywordMatch queryLower queryTerms kw = true ->
               includes (toLowerCase kw) term = true) ->
   keywordScore queryLower queryTerms r = k * 30) /\
  (forall score, termStep (searchableText r) score term = Normal score) /\
  (forall s, scoreResource queryLower queryTerms r = Normal s -> k * 30 <= s).
Proof.
  intros Hk Hin Hlen k.
  assert (Hsub : forall kw, includes (toLowerCase kw) term = true ->
                   keywordMatch queryLower queryTerms kw = true).
  { intros kw Hkw. unfold keywordMatch. apply orb_true_iff. right.
    apply existsb_exists. exists term. auto. }
  assert (Hle : k * 30 <= keywordScore queryLower queryTerms r).
  { unfold keywordScore. rewrite Hk. apply Nat.mul_le_mono_r.
    apply filter_length_le. intros kw _. apply Hsub. }
  split; [exact Hle|]. split; [|split].
  - intros Honly. unfold keywordScore. rewrite Hk. f_equal.
    unfold k. f_equal. apply filter_ext_in. intros kw Hkw.
    destruct (keywordMatch queryLower queryTerms kw) eqn:E.
    + symmetry. now apply Honly.
    + destruct (includes (toLowerCase kw) term) eqn:E'; [|reflexivity].
      rewrite (Hsub kw E') in E. discriminate.
  - intros score. now apply termStep_short.
  - intros s Hs. rewrite scoreResource_components in Hs.
    destruct (termFrequency (searchableText r) queryTerms) as [tf| |];
      cbn [cbind] in Hs; try discriminate.
    injection Hs as <-. lia.
Qed.

Lemma C8_short_term_witness :
  let k := length (List.filter (fun kw => includes (toLowerCase kw) (str "st"))
                     [str "stroke"; str "fast"]) in
  k * 30 <= keywordScore (str "st") [str "st"] strokeDoc /\
  ((forall kw, In kw [str "stroke"; str "fast"] ->
               keywordMatch (str "st") [str "st"] kw = true ->
               includes (toLowerCase kw) (str "st") = true) ->
   keywordScore (str "st") [str "st"] strokeDoc = k * 30) /\
  (forall score, termStep (searchableText strokeDoc) score (str "st") = Normal score) /\
  (forall s, scoreResource (str "st") [str "st"] strokeDoc = Normal s -> k * 30 <= s).
Proof.
  apply (C8_short_term_counts_in_keywords strokeDoc [str "stroke"; str "fast"]
           (str "st") [str "st"] (str "st")).
  - reflexivity.
  - simpl. auto.
  - simpl. lia.
Defined.

(** C9: the tokens of a query are not deduplicated, and the term-frequency
    pass adds the contribution of a term, 5 for each of its [m] matches in
    the text, once for each time the term stands among the tokens; the
    scores of "heart" and of "heart heart" differ. *)
Theorem C9_duplicate_terms_count_again
  (text term : t) (m : nat) (queryTerms : list t) :
  2 < length term -> RegExp.matchCount term text = Normal m ->
  termFrequency text queryTerms =
    cbind (termFrequency text (List.remove t_eq_dec term queryTerms)) (fun others =>
    Normal (others + List.count_occ t_eq_dec queryTerms term * (m * 5))) /\
  queryTermsOf (str "heart heart") = [str "heart"; str "heart"] /\
  termFrequency (searchableText (heartAttackDoc [] None)) (queryTermsOf (str "heart"))
    = Normal 10 /\
  termFrequency (searchableText (heartAttackDoc [] None))
    (queryTermsOf (str "heart heart")) = Normal 20 /\
  scoreResource (queryLowerOf (str "heart")) (queryTermsOf (str "heart"))
    (heartAttackDoc [] None) = Normal 190 /\
  scoreResource (queryLowerOf (str "heart heart")) (queryTermsOf (str "heart heart"))
    (heartAttackDoc [] None) = Normal 50.
Proof.
  intros Hlen Hm. split; [|repeat split; vm_compute; reflexivity].
  assert (Hstep : forall score, termStep text score term = Normal (score + m * 5)).
  { intros score. unfold termStep. apply Nat.ltb_lt in Hlen. now rewrite Hlen, Hm. }
  unfold termFrequency.
  induction queryTerms as [|a rest IH]; cbn [forEachTerm List.remove List.count_occ].
  - reflexivity.
  - destruct (t_eq_dec term a) as [<- | Hne].
    + destruct (t_eq_dec term term) as [_ | Hne]; [|congruence].
      rewrite Hstep. cbn [cbind]. rewrite forEachTerm_acc, IH.
      destruct (forEachTerm text (List.remove t_eq_dec term rest) 0);
        cbn [cbind]; try reflexivity.
      f_equal. lia.
    + destruct (t_eq_dec a term) as [E | _]; [congruence|].
      cbn [forEachTerm].
      destruct (termStep text 0 a) as [n| |]; cbn [cbind]; try reflexivity.
      rewrite (forEachTerm_acc text rest n), IH.
      rewrite (forEachTerm_acc text (List.remove t_eq_dec term rest) n).
      destruct (forEachTerm text (List.remove t_eq_dec term rest) 0);
        cbn [cbind]; try reflexivity.
      f_equal. lia.
Qed.

Lemma C9_duplicate_terms_witness :
  termFrequency (searchableText strokeDoc) [str "stroke"; str "signs"; str "stroke"] =
  cbind (termFrequency (searchableText strokeDoc)
           (List.remove t_eq_dec (str "stroke") [str "stroke"; str "signs"; str "stroke"]))
    (fun others =>
     Normal (others +
             List.count_occ t_eq_dec [str "stroke"; str "signs"; str "stroke"]
               (str "stroke") * (2 * 5))).
Proof.
  apply (C9_duplicate_terms_count_again (searchableText strokeDoc) (str "stroke") 2
           [str "stroke"; str "signs"; str "stroke"]).
  - simpl. lia.
  - vm_compute. reflexivity.
Defined.

Lemma includes_skip_whiteSpace q w b :
  noWhiteSpace q -> isWhiteSpace w = true ->
  includes (w :: b) q = true -> includes b q = true.
Proof.
  intros Hq Hw H.
  destruct (includes_across_whiteSpace q [] w b Hq Hw H) as [H0 | Hb]; [|exact Hb].
  apply includes_spec in H0 as (l1 & l2 & H0). symmetry in H0.
  apply app_eq_nil in H0 as [_ H0]. apply app_eq_nil in H0 as [-> _].
  apply includes_nil.
Qed.

Lemma includes_in_nil q s : includes [] q = true -> includes s q = true.
Proof.
  intros H. apply includes_spec in H as (l1 & l2 & H). symmetry in H.
  apply app_eq_nil in H as [_ H]. apply app_eq_nil in H as [-> _].
  apply includes_nil.
Qed.

(** The searchable text lays the four fields out between runs of white
    space. *)
Lemma searchableText_layout r :
  searchableText r =
  LF :: str "      " ++ toLowerCase (title r) ++
  str " " ++ LF :: str "      " ++ toLowerCase (category r) ++
  str " " ++ LF :: str "      " ++ toLowerCase (content r) ++
  str " " ++ LF :: str "      " ++ toLowerCase (joinedKeywords r) ++
  LF :: str "    ".
Proof.
  unfold searchableText.
  change (LF :: str "      " ++ ?x) with ((LF :: str "      ") ++ x).
  repeat (rewrite toLowerCase_app || rewrite <- app_assoc || rewrite <- app_comm_cons
          || (progress cbn [toLowerCase map app str list_ascii_of_string])).
  reflexivity.
Qed.

(** C10: the searchable text is the four lower-cased fields, each preceded
    by a line feed and six spaces, the first three followed by a space, and
    a line feed and four spaces at the end; a query without white space
    that the text includes is included in one of the fields. *)
Theorem C10_phrase_lies_within_one_field (r : resource) (q : t) :
  searchableText r =
    LF :: str "      " ++ toLowerCase (title r) ++
    str " " ++ LF :: str "      " ++ toLowerCase (category r) ++
    str " " ++ LF :: str "      " ++ toLowerCase (content r) ++
    str " " ++ LF :: str "      " ++ toLowerCase (joinedKeywords r) ++
    LF :: str "    " /\
  (noWhiteSpace q -> includes (searchableText r) q = true ->
   includes (toLowerCase (title r)) q = true \/
   includes (toLowerCase (category r)) q = true \/
   includes (toLowerCase (content r)) q = true \/
   includes (toLowerCase (joinedKeywords r)) q = true).
Proof.
  split; [apply searchableText_layout|].
  intros Hq H. rewrite searchableText_layout in H.
  cbn [str list_ascii_of_string app] in H.
  assert (Hsp : isWhiteSpace " " = true) by reflexivity.
  assert (Hlf : isWhiteSpace LF = true) by reflexivity.
  do 7 (apply includes_skip_whiteSpace in H; [|exact Hq|assumption]).
  destruct (includes_across_whiteSpace q _ _ _ Hq Hsp H) as [H1 | H1]; [tauto|];
    clear H; rename H1 into H.
  do 7 (apply includes_skip_whiteSpace in H; [|exact Hq|assumption]).
  destruct (includes_across_whiteSpace q _ _ _ Hq Hsp H) as [H1 | H1]; [tauto|];
    clear H; rename H1 into H.
  do 7 (apply includes_skip_whiteSpace in H; [|exact Hq|assumption]).
  destruct (includes_across_whiteSpace q _ _ _ Hq Hsp H) as [H1 | H1]; [tauto|];
    clear H; rename H1 into H.
  do 7 (apply includes_skip_whiteSpace in H; [|exact Hq|assumption]).
  destruct (includes_across_whiteSpace q _ _ _ Hq Hlf H) as [H1 | H1]; [tauto|];
    clear H; rename H1 into H.
  do 4 (apply includes_skip_whiteSpace in H; [|exact Hq|assumption]).
  left. now apply includes_in_nil.
Qed.

Lemma C10_phrase_witness :
  noWhiteSpace (str "drooping") /\
  includes (searchableText strokeDoc) (str "drooping") = true /\
  (includes (toLowerCase (title strokeDoc)) (str "drooping") = true \/
   includes (toLowerCase (category strokeDoc)) (str "drooping") = true \/
   includes (toLowerCase (content strokeDoc)) (str "drooping") = true \/
   includes (toLowerCase (joinedKeywords strokeDoc)) (str "drooping") = true).
Proof.
  assert (Hq : noWhiteSpace (str "drooping")).
  { intros c Hc. simpl in Hc.
    repeat (destruct Hc as [<- | Hc]; [reflexivity|]). destruct Hc. }
  assert (Hin : includes (searchableText strokeDoc) (str "drooping") = true)
    by (vm_compute; reflexivity).
  split; [exact Hq|]. split; [exact Hin|].
  exact (proj2 (C10_phrase_lies_within_one_field strokeDoc (str "drooping")) Hq Hin).
Defined.

(** ** C6: phrase match against a short keyword term *)

(** C6, as the specification states it, fails: the short term "hi" lies in
    four keywords of the second document, which scores 120 against the 105
    of the document whose content contains the query, and comes first. *)
Lemma C6_short_keyword_term_can_outrank_phrase :
  contentHasQuery hiThereQuery greetingDoc /\
  sharesOnlyShortKeywordTerm hiThereQuery (pressureDoc highKeywords) /\
  scoreResource (queryLowerOf hiThereQuery) (queryTermsOf hiThereQuery) greetingDoc
    = Normal 105 /\
  scoreResource (queryLowerOf hiThereQuery) (queryTermsOf hiThereQuery)
    (pressureDoc highKeywords) = Normal 120 /\
  searchOn [greetingDoc; pressureDoc highKeywords] hiThereQuery =
    Normal [pressureDoc highKeywords; greetingDoc] /\
  ~ (forall query A B sa sb,
       contentHasQuery query A -> sharesOnlyShortKeywordTerm query B ->
       scoreResource (queryLowerOf query) (queryTermsOf query) A = Normal sa ->
       scoreResource (queryLowerOf query) (queryTermsOf query) B = Normal sb ->
       sb < sa).
Proof.
  assert (HA : contentHasQuery hiThereQuery greetingDoc) by (vm_compute; reflexivity).
  assert (HB : sharesOnlyShortKeywordTerm hiThereQuery (pressureDoc highKeywords)).
  { exists (str "hi"). split; [vm_compute; auto|]. split; [simpl; lia|]. split.
    - exists highKeywords, (str "High blood pressure").
      split; [reflexivity|]. split; [now left | vm_compute; reflexivity].
    - intros term' Hin Hne.
      replace (queryTermsOf hiThereQuery) with [str "hi"; str "there"] in Hin
        by (vm_compute; reflexivity).
      destruct Hin as [<- | [<- | []]]; [congruence | vm_compute; reflexivity]. }
  assert (Hsa : scoreResource (queryLowerOf hiThereQuery) (queryTermsOf hiThereQuery)
                  greetingDoc = Normal 105) by (vm_compute; reflexivity).
  assert (Hsb : scoreResource (queryLowerOf hiThereQuery) (queryTermsOf hiThereQuery)
                  (pressureDoc highKeywords) = Normal 120) by (vm_compute; reflexivity).
  split; [exact HA|]. split; [exact HB|]. split; [exact Hsa|]. split; [exact Hsb|].
  split; [vm_compute; reflexivity|].
  intros Hclaim. specialize (Hclaim _ _ _ _ _ HA HB Hsa Hsb). lia.
Qed.

(** A field that includes the query makes the searchable text include it. *)
Lemma searchableText_includes_field r q :
  includes (toLowerCase (title r)) q = true \/
  includes (toLowerCase (category r)) q = true \/
  includes (toLowerCase (content r)) q = true ->
  includes (searchableText r) q = true.
Proof.
  rewrite searchableText_layout. intros [H | [H | H]].
  - apply (includes_embed _ _ (LF :: str "      ")) with (l2 :=
      str " " ++ LF :: str "      " ++ toLowerCase (category r) ++
      str " " ++ LF :: str "      " ++ toLowerCase (content r) ++
      str " " ++ LF :: str "      " ++ toLowerCase (joinedKeywords r) ++
      LF :: str "    ") in H. exact H.
  - apply (includes_embed _ _
             (LF :: str "      " ++ toLowerCase (title r) ++
              str " " ++ LF :: str "      ")) with (l2 :=
      str " " ++ LF :: str "      " ++ toLowerCase (content r) ++
      str " " ++ LF :: str "      " ++ toLowerCase (joinedKeywords r) ++
      LF :: str "    ") in H.
    cbn [app] in H. repeat rewrite <- app_assoc in H. exact H.
  - apply (includes_embed _ _
             (LF :: str "      " ++ toLowerCase (title r) ++
              str " " ++ LF :: str "      " ++ toLowerCase (category r) ++
              str " " ++ LF :: str "      ")) with (l2 :=
      str " " ++ LF :: str "      " ++ toLowerCase (joinedKeywords r) ++
      LF :: str "    ") in H.
    cbn [app] in H. repeat rewrite <- app_assoc in H.
    cbn [app] in H. repeat rewrite <- app_assoc in H. exact H.
Qed.

Lemma trimStart_toLowerCase s : trimStart (toLowerCase s) = toLowerCase (trimStart s).
Proof.
  induction s as [|c s IH]; [reflexivity|]. cbn [toLowerCase map trimStart].
  rewrite lowerUnit_whiteSpace. destruct (isWhiteSpace c); [exact IH | reflexivity].
Qed.

Lemma trim_toLowerCase s : trim (toLowerCase s) = toLowerCase (trim s).
Proof.
  unfold trim, trimEnd. rewrite trimStart_toLowerCase. unfold toLowerCase at 1.
  rewrite <- map_rev. fold (toLowerCase (rev (trimStart s))).
  rewrite trimStart_toLowerCase. unfold toLowerCase. now rewrite map_rev.
Qed.

Lemma queryLowerOf_blank query : blank query = true -> queryLowerOf query = [].
Proof.
  unfold blank, queryLowerOf. rewrite trim_toLowerCase. intros H.
  apply orb_true_iff in H as [H | H]; apply Nat.eqb_eq in H.
  - destruct query; [reflexivity | discriminate].
  - destruct (trim query); [reflexivity | discriminate].
Qed.

(** C6, amended: a document whose content contains the normalised query
    scores strictly more than a document whose searchable text does not
    contain it, in which no term of more than two characters matches and of
    which at most three keywords match the query or one of its terms; both
    scores are computed, the search returns on every collection, the first
    document is in its result and the second never stands before it. *)
Theorem C6_phrase_match_dominates (query : t) (A B : resource) :
  includes (content A) (queryLowerOf query) = true ->
  includes (searchableText B) (queryLowerOf query) = false ->
  termFrequency (searchableText B) (queryTermsOf query) = Normal 0 ->
  (forall kws, keywords B = Some kws ->
     length (List.filter (keywordMatch (queryLowerOf query) (queryTermsOf query)) kws)
     <= 3) ->
  (exists sa sb,
     scoreResource (queryLowerOf query) (queryTermsOf query) A = Normal sa /\
     scoreResource (queryLowerOf query) (queryTermsOf query) B = Normal sb /\
     sb < sa) /\
  (forall (h : heap) (a : loc) (ls : list loc) (la lb : loc),
     collection h a ls -> In la ls ->
     h !! la = Some (OResource A) -> h !! lb = Some (OResource B) ->
     exists out h' outl,
       searchAhaResources a query h = Normal (out, h') /\
       h' !! out = Some (OArray outl) /\
       In la outl /\
       forall l1 l2, outl = l1 ++ lb :: l2 -> ~ In la l2).
Proof.
  intros HA HB Htf Hkw.
  set (ql := queryLowerOf query) in *. set (qt := queryTermsOf query) in *.
  assert (Hc : termsCompile qt) by exact (termFrequency_normal_inv _ _ _ Htf).
  assert (HphraseA : includes (searchableText A) ql = true).
  { apply searchableText_includes_field. right. right.
    apply includes_toLowerCase in HA. unfold ql in *.
    now rewrite queryLowerOf_lower in HA. }
  assert (HsB : scoreResource ql qt B = Normal (keywordScore ql qt B) /\
                keywordScore ql qt B <= 90).
  { split.
    - rewrite scoreResource_components, Htf. cbn [cbind].
      unfold phraseBonus, titleBonus, categoryBonus. rewrite HB.
      destruct (includes (toLowerCase (title B)) ql) eqn:Et.
      { rewrite searchableText_includes_field in HB by auto. discriminate. }
      destruct (includes (toLowerCase (category B)) ql) eqn:Ec.
      { rewrite searchableText_includes_field in HB by auto. discriminate. }
      f_equal. lia.
    - unfold keywordScore. destruct (keywords B) as [kws|] eqn:Ek; [|lia].
      specialize (Hkw kws eq_refl). lia. }
  destruct HsB as [HsB Hle].
  destruct (scoreResource_compiles ql qt A Hc) as [sa HsA].
  assert (Hsa : 100 <= sa).
  { rewrite scoreResource_components in HsA.
    destruct (termFrequency (searchableText A) qt) as [tf| |];
      cbn [cbind] in HsA; try discriminate.
    injection HsA as <-. unfold phraseBonus. rewrite HphraseA. lia. }
  split.
  - exists sa, (keywordScore ql qt B). repeat split; [exact HsA | exact HsB | lia].
  - intros h a ls la lb Hcol Hla HlA HlB.
    assert (Hb : blank query = false).
    { destruct (blank query) eqn:Hb; [|reflexivity].
      apply queryLowerOf_blank in Hb. fold ql in Hb. rewrite Hb in HB.
      now rewrite includes_nil in HB. }
    destruct (search_returns h a ls query Hcol Hb Hc) as [_ [ext Hrun]].
    assert (HscA : scoreOf h query la = sa).
    { unfold scoreOf. fold ql qt. now rewrite HlA, HsA. }
    assert (HscB : scoreOf h query lb = keywordScore ql qt B).
    { unfold scoreOf. fold ql qt. now rewrite HlB, HsB. }
    eexists _, _, (ranked (scoreOf h query) ls).
    split; [exact Hrun|]. split; [now apply list_lookup_middle|]. split.
    + unfold ranked. apply sortByScore_In, filter_In. split; [exact Hla|].
      apply Nat.ltb_lt. lia.
    + intros l1 l2 Hout Hin.
      assert (Hd : descending (scoreOf h query) (l1 ++ lb :: l2)).
      { rewrite <- Hout. apply sortByScore_descending. }
      pose proof (descending_after _ _ _ _ _ Hd Hin). lia.
Qed.

Lemma C6_phrase_match_witness :
  (exists sa sb,
     scoreResource (queryLowerOf hiThereQuery) (queryTermsOf hiThereQuery) greetingDoc
       = Normal sa /\
     scoreResource (queryLowerOf hiThereQuery) (queryTermsOf hiThereQuery)
       (pressureDoc (firstn 3 highKeywords)) = Normal sb /\
     sb < sa) /\
  (forall (h : heap) (a : loc) (ls : list loc) (la lb : loc),
     collection h a ls -> In la ls ->
     h !! la = Some (OResource greetingDoc) ->
     h !! lb = Some (OResource (pressureDoc (firstn 3 highKeywords))) ->
     exists out h' outl,
       searchAhaResources a hiThereQuery h = Normal (out, h') /\
       h' !! out = Some (OArray outl) /\
       In la outl /\
       forall l1 l2, outl = l1 ++ lb :: l2 -> ~ In la l2).
Proof.
  apply (C6_phrase_match_dominates hiThereQuery greetingDoc
           (pressureDoc (firstn 3 highKeywords))).
  - vm_compute. reflexivity.
  - vm_compute. reflexivity.
  - vm_compute. reflexivity.
  - intros kws Hk. injection Hk as <-. vm_compute. lia.
Defined.

(** ** Terms without syntax characters *)

Section LiteralTerms.

Import RegExp.

Lemma parse_literal_step c pat cur stack st :
  syntaxCharacter c = false ->
  parse (c :: pat) cur stack st = parse pat (pushTerm (RChar c) cur) stack Atom.
Proof.
  intros H.
  destruct c as [[] [] [] [] [] [] [] []];
    first [ reflexivity | vm_compute in H; discriminate H ].
Qed.

Lemma parse_literal p : forall acc st,
  literal p ->
  parse p (Frame [] acc) [] st = Normal (mkSeq (rev acc ++ map RChar p)).
Proof.
  induction p as [|c p IH]; intros acc st H.
  - cbn [parse closeFrame alts terms_rev app map mkAlt]. now rewrite app_nil_r.
  - rewrite parse_literal_step by (apply H; now left).
    unfold pushTerm. cbn [alts terms_rev]. rewrite IH by (intros x Hx; apply H; now right).
    cbn [rev map]. now rewrite <- app_assoc.
Qed.

Lemma compile_literal p : literal p -> compile p = Normal (mkSeq (map RChar p)).
Proof. intros H. unfold compile. now rewrite parse_literal. Qed.

Lemma matcher_literal p : forall x c,
  matcher (mkSeq (map RChar p)) x c =
  if startsWith x p then c (skipn (length p) x) else None.
Proof.
  induction p as [|a p IH]; intros x c; [reflexivity|].
  cbn [map mkSeq foldr matcher startsWith length].
  destruct x as [|b x]; [reflexivity|].
  destruct (Ascii.eqb a b); [|reflexivity]. cbn [andb skipn].
  fold (mkSeq (map RChar p)). apply IH.
Qed.

Lemma occurrencesFrom_skip p s : forall k,
  occurrencesFrom p k s = occurrencesFrom p 0 (skipn k s).
Proof.
  induction s as [|c s IH]; intros k.
  - now destruct k.
  - destruct k as [|k]; [reflexivity|]. cbn [occurrencesFrom skipn]. apply IH.
Qed.

Lemma countMatches_literal p :
  p <> [] ->
  forall fuel x, length x < fuel ->
    countMatches (mkSeq (map RChar p)) fuel x = literalOccurrences p x.
Proof.
  intros Hp. induction fuel as [|fuel IH]; intros x Hlen; [lia|].
  cbn [countMatches]. unfold matchHere. rewrite matcher_literal.
  unfold literalOccurrences in *.
  destruct x as [|b x].
  - destruct p as [|a p]; [congruence|]. reflexivity.
  - cbn [occurrencesFrom]. destruct (startsWith (b :: x) p) eqn:E.
    + destruct p as [|a p]; [congruence|].
      cbn [length skipn Nat.sub]. rewrite Nat.sub_0_r.
      assert (Hl : length (skipn (length p) x) <= length x).
      { rewrite length_skipn. lia. }
      replace (length (skipn (length p) x) =? S (length x)) with false
        by (symmetry; apply Nat.eqb_neq; lia).
      rewrite IH by (cbn [length] in Hlen; lia).
      now rewrite (occurrencesFrom_skip (a :: p) x (length p)).
    + apply IH. cbn [length] in Hlen. lia.
Qed.

(** On a term without syntax characters the count of the code is the count
    of literal occurrences. *)
Lemma matchCount_literal p text :
  literal p -> p <> [] -> matchCount p text = Normal (literalOccurrences p text).
Proof.
  intros Hl Hp. unfold matchCount. rewrite (compile_literal p Hl). cbn [cbind].
  f_equal. apply countMatches_literal; [exact Hp | lia].
Qed.

Lemma termStep_literal text score term :
  literal term -> 2 < length term ->
  termStep text score term = Normal (score + literalOccurrences term text * 5).
Proof.
  intros Hl Hlen. unfold termStep.
  rewrite matchCount_literal; [| exact Hl | destruct term; [simpl in Hlen; lia | congruence]].
  apply Nat.ltb_lt in Hlen. now rewrite Hlen.
Qed.

Lemma syntaxCharacter_lowerUnit c : syntaxCharacter (lowerUnit c) = syntaxCharacter c.
Proof. destruct c as [[] [] [] [] [] [] [] []]; reflexivity. Qed.

Lemma split_ws_from_incl s : forall in_sep piece term c,
  In term (split_ws_from in_sep piece s) -> In c term -> In c piece \/ In c s.
Proof.
  induction s as [|a s IH]; intros in_sep piece term c Ht Hc; cbn [split_ws_from] in Ht.
  - destruct Ht as [<- | []]. now left.
  - destruct (isWhiteSpace a).
    + destruct in_sep.
      * destruct (IH _ _ _ _ Ht Hc) as [[] | H]. right. now right.
      * destruct Ht as [<- | Ht]; [now left|].
        destruct (IH _ _ _ _ Ht Hc) as [[] | H]. right. now right.
    + destruct (IH _ _ _ _ Ht Hc) as [H | H].
      * apply in_app_or in H as [H | [<- | []]]; [now left | right; now left].
      * right. now right.
Qed.

(** The terms of a query without syntax characters have none. *)
Lemma queryTermsOf_literal query :
  literal query -> forall term, In term (queryTermsOf query) -> literal term.
Proof.
  intros Hq term Ht c Hc. unfold queryTermsOf in Ht.
  apply filter_In in Ht as [Ht _]. unfold split_ws in Ht.
  destruct (split_ws_from_incl _ _ _ _ c Ht Hc) as [[] | H].
  unfold queryLowerOf in H. apply trim_incl in H. unfold toLowerCase in H.
  apply in_map_iff in H as (c' & <- & Hc').
  rewrite syntaxCharacter_lowerUnit. now apply Hq.
Qed.

Lemma termsCompile_literal query : literal query -> termsCompile (queryTermsOf query).
Proof.
  intros Hq term Ht _. eexists. apply compile_literal.
  now apply (queryTermsOf_literal query).
Qed.

(** On a query without syntax characters the search returns, on every
    collection. *)
Lemma search_returns_literal h a ls query :
  collection h a ls -> literal query ->
  exists out h', searchAhaResources a query h = Normal (out, h').
Proof.
  intros Hc Hq. destruct (blank query) eqn:Hb.
  - rewrite (search_run_blank h a query Hb). eauto.
  - destruct (search_returns h a ls query Hc Hb (termsCompile_literal query Hq))
      as [_ [ext ->]]. eauto.
Qed.

End LiteralTerms.

(** * Further properties of the search *)

Ltac literal_string :=
  let c := fresh "c" in
  let Hc := fresh "Hc" in
  intros c Hc; simpl in Hc;
  repeat (destruct Hc as [<- | Hc]; [reflexivity|]); destruct Hc.

Ltac in_collection :=
  let l := fresh "l" in
  let Hl := fresh "Hl" in
  split; [reflexivity|]; intros l Hl; simpl in Hl;
  repeat (destruct Hl as [<- | Hl]; [eexists; reflexivity|]); destruct Hl.

(** X1: on a well-formed collection, a query without characters of the
    pattern syntax never makes the search throw: it returns an array. *)
Theorem X1_search_returns_on_plain_query
  (h : heap) (a : loc) (ls : list loc) (query : t) :
  collection h a ls -> literal query ->
  exists out h' outl,
    searchAhaResources a query h = Normal (out, h') /\
    h' !! out = Some (OArray outl).
Proof.
  intros Hc Hq. destruct (blank query) eqn:Hb.
  - exists (length h), (h ++ [OArray []]), [].
    split; [now apply search_run_blank | now apply list_lookup_middle].
  - destruct (search_returns h a ls query Hc Hb (termsCompile_literal query Hq))
      as [_ [ext Hrun]].
    eexists _, _, _. split; [exact Hrun | now apply list_lookup_middle].
Qed.

Lemma X1_search_returns_witness :
  exists out h' outl,
    searchAhaResources 3 (str "Chest pain, what now") (fst (load exampleDocs)) =
      Normal (out, h') /\
    h' !! out = Some (OArray outl).
Proof.
  apply (X1_search_returns_on_plain_query (fst (load exampleDocs)) 3 [0; 1; 2]
           (str "Chest pain, what now")).
  - in_collection.
  - literal_string.
Defined.

(** X2: when the terms of a query hold no character of the pattern syntax,
    the term-frequency pass adds 5 for each non-overlapping literal
    occurrence of each term longer than two characters, and nothing for the
    shorter terms. *)
Theorem X2_plain_terms_count_literal_occurrences (text : t) (queryTerms : list t) :
  (forall term, In term queryTerms -> literal term) ->
  termFrequency text queryTerms = Normal (literalFrequency text queryTerms).
Proof.
  unfold termFrequency, literalFrequency.
  induction queryTerms as [|term rest IH]; intros Hl; [reflexivity|].
  cbn [forEachTerm map list_sum].
  assert (Hstep : termStep text 0 term =
                  Normal (if 2 <? length term
                          then literalOccurrences term text * 5 else 0)).
  { destruct (2 <? length term) eqn:E.
    - apply Nat.ltb_lt in E. rewrite termStep_literal; [reflexivity | | exact E].
      apply Hl. now left.
    - apply Nat.ltb_ge in E. now apply termStep_short. }
  rewrite Hstep. cbn [cbind]. rewrite forEachTerm_acc.
  rewrite IH by (intros t' Ht'; apply Hl; now right). reflexivity.
Qed.

Lemma X2_plain_terms_witness :
  termFrequency (searchableText strokeDoc) [str "stroke"; str "of"; str "arm"] =
  Normal (literalFrequency (searchableText strokeDoc) [str "stroke"; str "of"; str "arm"]).
Proof.
  apply (X2_plain_terms_count_literal_occurrences (searchableText strokeDoc)
           [str "stroke"; str "of"; str "arm"]).
  intros term Ht. simpl in Ht.
  destruct Ht as [<- | [<- | [<- | []]]]; literal_string.
Defined.

Lemma join_holds_element (sep : t) (kws : list t) (kw : t) :
  In kw kws -> exists l1 l2, join sep kws = l1 ++ kw ++ l2.
Proof.
  induction kws as [|x kws IH]; intros Hin; [destruct Hin|].
  destruct Hin as [-> | Hin].
  - destruct kws as [|y kws].
    + exists [], []. cbn [join app]. now rewrite app_nil_r.
    + exists [], (sep ++ join sep (y :: kws)). reflexivity.
  - destruct (IH Hin) as (l1 & l2 & E). destruct kws as [|y kws]; [destruct Hin|].
    exists (x ++ sep ++ l1), l2. cbn [join] in *. rewrite E.
    now rewrite <- !app_assoc.
Qed.

Lemma searchableText_includes_keywords r q :
  includes (toLowerCase (joinedKeywords r)) q = true ->
  includes (searchableText r) q = true.
Proof.
  rewrite searchableText_layout. intros H.
  apply (includes_embed _ _
           (LF :: str "      " ++ toLowerCase (title r) ++
            str " " ++ LF :: str "      " ++ toLowerCase (category r) ++
            str " " ++ LF :: str "      " ++ toLowerCase (content r) ++
            str " " ++ LF :: str "      ")) with (l2 := LF :: str "    ") in H.
  cbn [app] in H. repeat rewrite <- app_assoc in H.
  cbn [app] in H. repeat rewrite <- app_assoc in H.
  cbn [app] in H. repeat rewrite <- app_assoc in H. exact H.
Qed.

Lemma keyword_in_searchableText r kws kw q :
  keywords r = Some kws -> In kw kws ->
  includes (toLowerCase kw) q = true -> includes (searchableText r) q = true.
Proof.
  intros Hk Hin Hq. apply searchableText_includes_keywords.
  unfold joinedKeywords. rewrite Hk.
  destruct (join_holds_element (str " ") kws kw Hin) as (l1 & l2 & ->).
  rewrite !toLowerCase_app. now apply includes_embed.
Qed.

(** X3: the bonuses are nested.  Whenever the lower-cased title, category,
    content or a keyword of a document contains the normalised query, so
    does its searchable text, and the phrase bonus comes on top: a title
    match scores at least 150, a category match at least 120, a content
    match at least 100 and a keyword containing the query at least 130. *)
Theorem X3_field_match_brings_phrase_bonus
  (queryLower : t) (queryTerms : list t) (r : resource) (s : nat) :
  scoreResource queryLower queryTerms r = Normal s ->
  (includes (toLowerCase (title r)) queryLower = true -> 150 <= s) /\
  (includes (toLowerCase (category r)) queryLower = true -> 120 <= s) /\
  (includes (toLowerCase (content r)) queryLower = true -> 100 <= s) /\
  (forall kws kw, keywords r = Some kws -> In kw kws ->
     includes (toLowerCase kw) queryLower = true -> 130 <= s).
Proof.
  intros Hs. rewrite scoreResource_components in Hs.
  destruct (termFrequency (searchableText r) queryTerms) as [tf| |];
    cbn [cbind] in Hs; try discriminate.
  injection Hs as <-. unfold phraseBonus, titleBonus, categoryBonus.
  repeat split.
  - intros H. rewrite (searchableText_includes_field r queryLower) by auto.
    rewrite H. lia.
  - intros H. rewrite (searchableText_includes_field r queryLower) by auto.
    rewrite H. lia.
  - intros H. rewrite (searchableText_includes_field r queryLower) by auto. lia.
  - intros kws kw Hk Hin H.
    rewrite (keyword_in_searchableText r kws kw queryLower Hk Hin H).
    assert (1 <= length (List.filter (keywordMatch queryLower queryTerms) kws)).
    { assert (Hm : In kw (List.filter (keywordMatch queryLower queryTerms) kws)).
      { apply filter_In. split; [exact Hin|]. unfold keywordMatch. now rewrite H. }
      destruct (List.filter (keywordMatch queryLower queryTerms) kws);
        [destruct Hm | simpl; lia]. }
    unfold keywordScore. rewrite Hk. lia.
Qed.

Lemma X3_field_match_witness :
  (includes (toLowerCase (title strokeDoc)) (str "stroke") = true -> 150 <= 190) /\
  (includes (toLowerCase (category strokeDoc)) (str "stroke") = true -> 120 <= 190) /\
  (includes (toLowerCase (content strokeDoc)) (str "stroke") = true -> 100 <= 190) /\
  (forall kws kw, keywords strokeDoc = Some kws -> In kw kws ->
     includes (toLowerCase kw) (str "stroke") = true -> 130 <= 190).
Proof.
  apply (X3_field_match_brings_phrase_bonus (str "stroke") [str "stroke"] strokeDoc 190).
  vm_compute. reflexivity.
Defined.

(** X4: a document scores 0, and is left out of the result, exactly when
    its searchable text does not contain the normalised query, none of its
    keywords matches and the term-frequency pass adds nothing. *)
Theorem X4_zero_score (queryLower : t) (queryTerms : list t) (r : resource) :
  scoreResource queryLower queryTerms r = Normal 0 <->
  includes (searchableText r) queryLower = false /\
  keywordScore queryLower queryTerms r = 0 /\
  termFrequency (searchableText r) queryTerms = Normal 0.
Proof.
  rewrite scoreResource_components. unfold phraseBonus, titleBonus, categoryBonus.
  split.
  - intros H.
    destruct (termFrequency (searchableText r) queryTerms) as [tf| |];
      cbn [cbind] in H; try discriminate.
    destruct (includes (searchableText r) queryLower),
      (includes (toLowerCase (title r)) queryLower),
      (includes (toLowerCase (category r)) queryLower);
      injection H as H; try lia.
    repeat split; [lia | f_equal; lia].
  - intros (Hp & Hk & Htf). rewrite Htf, Hp, Hk. cbn [cbind].
    destruct (includes (toLowerCase (title r)) queryLower) eqn:Et.
    { rewrite searchableText_includes_field in Hp by auto. discriminate. }
    destruct (includes (toLowerCase (category r)) queryLower) eqn:Ec.
    { rewrite searchableText_includes_field in Hp by auto. discriminate. }
    reflexivity.
Qed.

Lemma X4_zero_score_witness :
  scoreResource (str "xyzzy") [str "xyzzy"] dietDoc = Normal 0.
Proof.
  apply (proj2 (X4_zero_score (str "xyzzy") [str "xyzzy"] dietDoc)).
  repeat split; vm_compute; reflexivity.
Defined.

Lemma blank_trim query : blank query = (length (trim query) =? 0).
Proof.
  unfold blank. destruct query as [|c query]; [reflexivity|]. reflexivity.
Qed.

Lemma blank_toLowerCase query : blank (toLowerCase query) = blank query.
Proof.
  rewrite !blank_trim, trim_toLowerCase. unfold toLowerCase. now rewrite length_map.
Qed.

Lemma searchAhaResources_same_normal_form a q1 q2 h :
  blank q1 = blank q2 -> queryLowerOf q1 = queryLowerOf q2 ->
  searchAhaResources a q1 h = searchAhaResources a q2 h.
Proof.
  intros Hb Hq. rewrite !searchAhaResources_unfold. unfold queryTermsOf.
  now rewrite Hb, Hq.
Qed.

(** X5: the search ignores the case of the query: two queries with the same
    lower-case form run alike, to the same result or the same exception. *)
Theorem X5_query_case_is_ignored (a : loc) (q1 q2 : t) (h : heap) :
  toLowerCase q1 = toLowerCase q2 ->
  searchAhaResources a q1 h = searchAhaResources a q2 h.
Proof.
  intros H. apply searchAhaResources_same_normal_form.
  - now rewrite <- (blank_toLowerCase q1), <- (blank_toLowerCase q2), H.
  - unfold queryLowerOf. now rewrite H.
Qed.

Lemma X5_query_case_witness :
  searchAhaResources 3 (str "HEART Attack") (fst (load exampleDocs)) =
  searchAhaResources 3 (str "heart attack") (fst (load exampleDocs)).
Proof.
  apply (X5_query_case_is_ignored 3 (str "HEART Attack") (str "heart attack")).
  reflexivity.
Defined.

Lemma trimStart_skip_blank w s :
  forallb isWhiteSpace w = true -> trimStart (w ++ s) = trimStart s.
Proof.
  induction w as [|c w IH]; [reflexivity|]. cbn [forallb app trimStart].
  intros H. apply andb_true_iff in H as [-> H]. auto.
Qed.

Lemma trimEnd_skip_blank w s :
  forallb isWhiteSpace w = true -> trimEnd (s ++ w) = trimEnd s.
Proof.
  intros H. unfold trimEnd. rewrite rev_app_distr, trimStart_skip_blank; [reflexivity|].
  rewrite forallb_forall in *. intros c Hc. apply H. now apply in_rev.
Qed.

Lemma trim_padded w1 w2 s :
  forallb isWhiteSpace w1 = true -> forallb isWhiteSpace w2 = true ->
  trim (w1 ++ s ++ w2) = trim s.
Proof.
  intros H1 H2. unfold trim. rewrite (trimStart_skip_blank w1 _ H1). clear H1.
  induction s as [|c s IH].
  - cbn [app]. now rewrite (trimStart_blank w2 H2).
  - cbn [app trimStart]. destruct (isWhiteSpace c); [exact IH|].
    change (c :: s ++ w2) with ((c :: s) ++ w2).
    now rewrite (trimEnd_skip_blank w2 (c :: s) H2).
Qed.

Lemma forallb_whiteSpace_lower w :
  forallb isWhiteSpace w = true -> forallb isWhiteSpace (toLowerCase w) = true.
Proof.
  rewrite !forallb_forall. intros H c Hc. unfold toLowerCase in Hc.
  apply in_map_iff in Hc as (c' & <- & Hc'). rewrite lowerUnit_whiteSpace. auto.
Qed.

(** X6: white space around the query is ignored: padding a query with white
    space on either side leaves the run of the search as it is. *)
Theorem X6_query_padding_is_ignored (a : loc) (w1 w2 query : t) (h : heap) :
  forallb isWhiteSpace w1 = true -> forallb isWhiteSpace w2 = true ->
  searchAhaResources a (w1 ++ query ++ w2) h = searchAhaResources a query h.
Proof.
  intros H1 H2. apply searchAhaResources_same_normal_form.
  - now rewrite !blank_trim, trim_padded.
  - unfold queryLowerOf. rewrite !toLowerCase_app.
    apply trim_padded; now apply forallb_whiteSpace_lower.
Qed.

Lemma X6_query_padding_witness :
  searchAhaResources 3 (str "  " ++ str "heart attack" ++ [LF]) (fst (load exampleDocs)) =
  searchAhaResources 3 (str "heart attack") (fst (load exampleDocs)).
Proof.
  apply (X6_query_padding_is_ignored 3 (str "  ") [LF] (str "heart attack"));
    reflexivity.
Defined.

Lemma toLowerCase_join sep kws :
  toLowerCase (join sep kws) = join (toLowerCase sep) (map toLowerCase kws).
Proof.
  induction kws as [|x kws IH]; [reflexivity|].
  destruct kws as [|y kws]; [reflexivity|].
  cbn [join map] in *. now rewrite !toLowerCase_app, IH.
Qed.

Lemma keywordMatch_lower ql qt kw :
  keywordMatch ql qt (toLowerCase kw) = keywordMatch ql qt kw.
Proof. unfold keywordMatch. now rewrite toLowerCase_idem. Qed.

Lemma searchableText_lowerResource r :
  searchableText (lowerResource r) = searchableText r.
Proof.
  rewrite !searchableText_layout. unfold lowerResource, joinedKeywords.
  cbn [title category content keywords]. rewrite !toLowerCase_idem.
  destruct (keywords r) as [kws|]; cbn [option_map]; [|reflexivity].
  rewrite !toLowerCase_join, map_map.
  rewrite (map_ext _ _ toLowerCase_idem). reflexivity.
Qed.

(** X7: the search ignores the case of the documents: a resource scores
    what the same resource with title, category, content and keywords in
    lower case scores. *)
Theorem X7_document_case_is_ignored (queryLower : t) (queryTerms : list t) (r : resource) :
  scoreResource queryLower queryTerms (lowerResource r) =
  scoreResource queryLower queryTerms r.
Proof.
  rewrite !scoreResource_components, searchableText_lowerResource.
  unfold phraseBonus, titleBonus, categoryBonus, keywordScore.
  rewrite searchableText_lowerResource. unfold lowerResource.
  cbn [title category keywords]. rewrite !toLowerCase_idem.
  destruct (keywords r) as [kws|]; cbn [option_map]; [|reflexivity].
  rewrite filter_map_commute, length_map.
  rewrite (filter_ext _ _ (keywordMatch_lower queryLower queryTerms)). reflexivity.
Qed.

(** X8: on an empty collection the search returns an empty array for every
    query, also for one whose terms are no patterns: no term is compiled
    when there is no resource to score. *)
Theorem X8_empty_collection_yields_empty (h : heap) (a : loc) (query : t) :
  h !! a = Some (OArray []) ->
  exists out h',
    searchAhaResources a query h = Normal (out, h') /\
    h' !! out = Some (OArray []).
Proof.
  intros Ha. destruct (blank query) eqn:Hb.
  - exists (length h), (h ++ [OArray []]).
    split; [now apply search_run_blank | now apply list_lookup_middle].
  - destruct (search_run h a [] query (fun _ => 0) Ha) as [ext Hrun];
      [intros l [] | exact Hb |].
    eexists _, _. split; [exact Hrun | now apply list_lookup_middle].
Qed.

Lemma X8_empty_collection_witness :
  exists out h',
    searchAhaResources 0 (str "c++ (((") [OArray []] = Normal (out, h') /\
    h' !! out = Some (OArray []).
Proof.
  apply (X8_empty_collection_yields_empty [OArray []] 0 (str "c++ (((")).
  reflexivity.
Defined.

(** X9: a term of one or two characters is never compiled: a query all of
    whose terms are that short returns on every well-formed collection,
    whatever characters it holds. *)
Theorem X9_short_terms_never_throw (h : heap) (a : loc) (ls : list loc) (query : t) :
  collection h a ls ->
  (forall term, In term (queryTermsOf query) -> length term <= 2) ->
  exists out h', searchAhaResources a query h = Normal (out, h').
Proof.
  intros Hc Hshort. destruct (blank query) eqn:Hb.
  - rewrite (search_run_blank h a query Hb). eauto.
  - assert (Ht : termsCompile (queryTermsOf query)).
    { intros term Hin Hlen. specialize (Hshort term Hin). lia. }
    destruct (search_returns h a ls query Hc Hb Ht) as [_ [ext ->]]. eauto.
Qed.

Lemma X9_short_terms_witness :
  exists out h',
    searchAhaResources 3 (str "( [ ?? a*") (fst (load exampleDocs)) = Normal (out, h').
Proof.
  apply (X9_short_terms_never_throw (fst (load exampleDocs)) 3 [0; 1; 2]
           (str "( [ ?? a*")).
  - in_collection.
  - intros term Hin.
    replace (queryTermsOf (str "( [ ?? a*"))
      with [str "("; str "["; str "??"; str "a*"] in Hin by (vm_compute; reflexivity).
    simpl in Hin. destruct Hin as [<- | [<- | [<- | [<- | []]]]]; simpl; lia.
Defined.

(** X10: the first reference of a result is a best one: no resource of the
    collection scores more than the resource the result starts with. *)
Theorem X10_first_result_scores_highest
  (h : heap) (a : loc) (ls : list loc) (query : t) (out : loc) (h' : heap)
  (top : loc) (rest : list loc) :
  collection h a ls ->
  searchAhaResources a query h = Normal (out, h') ->
  h' !! out = Some (OArray (top :: rest)) ->
  forall l, In l ls -> scoreOf h query l <= scoreOf h query top.
Proof.
  intros Hc Hrun Hout l Hl.
  destruct (search_normal_inv h a ls query out h' Hc Hrun)
    as [(_ & -> & ->) | (_ & _ & ext & -> & ->)].
  - rewrite list_lookup_middle in Hout by reflexivity. discriminate.
  - rewrite list_lookup_middle in Hout by reflexivity. injection Hout as Hr.
    destruct (Nat.eq_dec (scoreOf h query l) 0) as [E | E]; [lia|].
    assert (Hin : In l (ranked (scoreOf h query) ls)).
    { unfold ranked. apply sortByScore_In, filter_In. split; [exact Hl|].
      apply Nat.ltb_lt. lia. }
    rewrite Hr in Hin. destruct Hin as [<- | Hin]; [lia|].
    assert (Hd : descending (scoreOf h query) ([] ++ top :: rest)).
    { cbn [app]. rewrite <- Hr. apply sortByScore_descending. }
    exact (descending_after _ _ _ _ _ Hd Hin).
Qed.

Lemma X10_first_result_witness :
  scoreOf (fst (load exampleDocs)) (str "heart") 1 <=
  scoreOf (fst (load exampleDocs)) (str "heart") 2.
Proof.
  apply (X10_first_result_scores_highest (fst (load exampleDocs)) 3 [0; 1; 2]
           (str "heart")
           (fst (returned (searchAhaResources 3 (str "heart") (fst (load exampleDocs)))))
           (snd (returned (searchAhaResources 3 (str "heart") (fst (load exampleDocs)))))
           2 [1]).
  - in_collection.
  - vm_compute. reflexivity.
  - vm_compute. reflexivity.
  - simpl. auto.
Defined.

Lemma insertByScore_permutation {A} (key : A -> nat) x l :
  Permutation (insertByScore key x l) (x :: l).
Proof.
  induction l as [|y l IH]; simpl; [reflexivity|].
  destruct (key y <=? key x); [reflexivity|].
  rewrite IH. apply perm_swap.
Qed.

Lemma sortByScore_permutation {A} (key : A -> nat) l :
  Permutation (sortByScore key l) l.
Proof.
  induction l as [|x l IH]; simpl; [reflexivity|].
  rewrite insertByScore_permutation. now constructor.
Qed.

Lemma filter_length_bound {A} (p : A -> bool) l :
  length (List.filter p l) <= length l.
Proof.
  induction l as [|x l IH]; simpl; [lia|]. destruct (p x); simpl; lia.
Qed.

(** X11: a result is a rearranged part of the collection: it holds no
    more references than the collection, and when the collection holds no
    reference twice, neither does the result. *)
Theorem X11_result_is_part_of_collection
  (h : heap) (a : loc) (ls : list loc) (query : t) (out : loc) (h' : heap) :
  collection h a ls ->
  searchAhaResources a query h = Normal (out, h') ->
  exists outl,
    h' !! out = Some (OArray outl) /\
    length outl <= length ls /\
    (List.NoDup ls -> List.NoDup outl).
Proof.
  intros Hc Hrun.
  destruct (search_normal_inv h a ls query out h' Hc Hrun)
    as [(_ & -> & ->) | (_ & _ & ext & -> & ->)].
  - exists []. split; [now apply list_lookup_middle|]. split; [simpl; lia|].
    intros _. constructor.
  - exists (ranked (scoreOf h query) ls). split; [now apply list_lookup_middle|].
    unfold ranked. split.
    + rewrite (Permutation_length (sortByScore_permutation _ _)).
      apply filter_length_bound.
    + intros Hnd.
      eapply Permutation_NoDup; [symmetry; apply sortByScore_permutation|].
      now apply List.NoDup_filter.
Qed.

Lemma X11_result_witness :
  let h := fst (load exampleDocs) in
  let res := returned (searchAhaResources 3 (str "heart") h) in
  exists outl,
    snd res !! fst res = Some (OArray outl) /\
    length outl <= length [0; 1; 2] /\
    (List.NoDup [0; 1; 2] -> List.NoDup outl).
Proof.
  cbv zeta.
  apply (X11_result_is_part_of_collection (fst (load exampleDocs)) 3 [0; 1; 2]
           (str "heart")).
  - in_collection.
  - vm_compute. reflexivity.
Defined.

Lemma forEachTerm_app text l1 l2 : forall score,
  forEachTerm text (l1 ++ l2) score =
  cbind (forEachTerm text l1 score) (forEachTerm text l2).
Proof.
  induction l1 as [|term l1 IH]; intros score; [reflexivity|].
  cbn [app forEachTerm].
  destruct (termStep text score term); cbn [cbind]; [apply IH | reflexivity..].
Qed.

Lemma queryTermsOf_blank query : blank query = true -> queryTermsOf query = [].
Proof.
  intros Hb. unfold queryTermsOf. now rewrite (queryLowerOf_blank query Hb).
Qed.

Lemma scoreResource_invalid_term ql pre term post r :
  termsCompile pre -> 2 < length term ->
  RegExp.compile term = Throw SyntaxError ->
  scoreResource ql (pre ++ term :: post) r = Throw SyntaxError.
Proof.
  intros Hpre Hlen Hbad. rewrite scoreResource_components. unfold termFrequency.
  rewrite forEachTerm_app.
  destruct (termFrequency_compiles (searchableText r) pre Hpre) as [n Hn].
  unfold termFrequency in Hn. rewrite Hn. cbn [cbind forEachTerm].
  unfold termStep, RegExp.matchCount. apply Nat.ltb_lt in Hlen.
  now rewrite Hlen, Hbad.
Qed.

Lemma search_throws_on_rejected_term
  (h : heap) (a : loc) (l0 : loc) (ls : list loc) (query : t)
  (pre : list t) (term : t) (post : list t) :
  collection h a (l0 :: ls) ->
  queryTermsOf query = pre ++ term :: post ->
  termsCompile pre -> 2 < length term ->
  RegExp.compile term = Throw SyntaxError ->
  blank query = false /\ searchAhaResources a query h = Throw SyntaxError.
Proof.
  intros [Ha Hwf] Hq Hpre Hlen Hbad.
  assert (Hb : blank query = false).
  { destruct (blank query) eqn:Hb; [|reflexivity].
    rewrite (queryTermsOf_blank query Hb) in Hq. now destruct pre. }
  split; [exact Hb|].
  destruct (Hwf l0 (or_introl eq_refl)) as [r0 Hr0].
  rewrite searchAhaResources_unfold, Hb. apply bind_throw. unfold Array_map.
  rewrite (bind_run _ _ _ _ _ (getArray_run h a _ Ha)).
  apply bind_throw. cbn [mapM]. apply bind_throw. unfold scoring, getResource.
  rewrite (bind_run _ _ h r0 h) by (now rewrite Hr0).
  apply bind_throw. unfold lift. rewrite Hq.
  now rewrite (scoreResource_invalid_term _ pre term post r0 Hpre Hlen Hbad).
Qed.

(** X12: a query makes the search throw a SyntaxError, on every collection
    that is not empty, as soon as one of its terms longer than two
    characters is rejected by the RegExp constructor while the terms before
    it compile. *)
Theorem X12_rejected_term_makes_search_throw
  (h : heap) (a : loc) (l0 : loc) (ls : list loc) (query : t)
  (pre : list t) (term : t) (post : list t) :
  collection h a (l0 :: ls) ->
  queryTermsOf query = pre ++ term :: post ->
  termsCompile pre -> 2 < length term ->
  RegExp.compile term = Throw SyntaxError ->
  searchAhaResources a query h = Throw SyntaxError.
Proof.
  intros Hc Hq Hpre Hlen Hbad.
  exact (proj2 (search_throws_on_rejected_term h a l0 ls query pre term post
                  Hc Hq Hpre Hlen Hbad)).
Qed.

Lemma X12_rejected_term_witness :
  searchAhaResources 3 (str "what is c++ about") (fst (load exampleDocs)) =
  Throw SyntaxError.
Proof.
  apply (X12_rejected_term_makes_search_throw (fst (load exampleDocs)) 3 0 [1; 2]
           (str "what is c++ about") [str "what"; str "is"] (str "c++") [str "about"]).
  - in_collection.
  - vm_compute. reflexivity.
  - intros term Hin _. simpl in Hin.
    destruct Hin as [<- | [<- | []]]; eexists; vm_compute; reflexivity.
  - simpl. lia.
  - vm_compute. reflexivity.
Defined.

(** * The tool handler *)

Lemma resolves_exists (h : heap) (locs : list loc) :
  (forall l, In l locs -> exists r, h !! l = Some (OResource r)) ->
  exists rs, resolves h locs rs.
Proof.
  induction locs as [|l locs IH]; intros H.
  - exists []. constructor.
  - destruct (H l (or_introl eq_refl)) as [r Hr].
    destruct IH as [rs Hrs]; [intros l' Hl'; apply H; now right|].
    exists (r :: rs). now constructor.
Qed.

Lemma resolves_app (h ext : heap) locs rs :
  resolves h locs rs -> resolves (h ++ ext) locs rs.
Proof.
  induction 1; constructor; [now apply lookup_app_l_Some | assumption].
Qed.

Lemma renderStep_run H total acc l index r :
  H !! l = Some (OResource r) ->
  renderStep total acc l index H = Normal (acc ++ renderEntry total index r, H).
Proof.
  intros Hl. unfold renderStep, getResource.
  rewrite (bind_run _ _ H r H) by (now rewrite Hl).
  unfold ret, renderEntry. do 2 f_equal.
  destruct (url r) as [u|]; [destruct (0 <? length u)|];
    destruct (index <? total - 1);
    repeat (rewrite <- app_assoc || rewrite app_nil_r || cbn [app]); reflexivity.
Qed.

Lemma forEachIndexed_run H total elems rs :
  resolves H elems rs ->
  forall index acc,
    forEachIndexed (renderStep total) index elems acc H =
    Normal (acc ++ renderEntries total index rs, H).
Proof.
  induction 1 as [|l r elems rs Hl _ IH]; intros index acc; cbn [forEachIndexed renderEntries].
  - unfold ret. now rewrite app_nil_r.
  - rewrite (bind_run _ _ _ _ _ (renderStep_run H total acc l index r Hl)).
    rewrite IH. now rewrite <- app_assoc.
Qed.

Lemma mapM_summarize_run H elems rs :
  resolves H elems rs -> mapM summarize elems H = Normal (map summaryOf rs, H).
Proof.
  induction 1 as [|l r elems rs Hl _ IH]; [reflexivity|]. cbn [mapM map].
  assert (Hs : summarize l H = Normal (summaryOf r, H)).
  { unfold summarize, getResource. now rewrite (bind_run _ _ H r H) by (now rewrite Hl). }
  rewrite (bind_run _ _ _ _ _ Hs), (bind_run _ _ _ _ _ IH). reflexivity.
Qed.

Lemma searchTool_unfold a q :
  searchTool a (Some q) =
  if blank q then ret (ToolResult promptText None)
  else
    let* matchingResources := searchAhaResources a q in
    let* matching := getArray matchingResources in
    if length matching =? 0 then ret (ToolResult (notFoundText q) None)
    else
      let* topResources := Array_slice 0 3 matchingResources in
      let* top := getArray topResources in
      let* responseText :=
        forEachIndexed (renderStep (length top)) 0 top (headerText q) in
      let* shown := mapM summarize top in
      ret (ToolResult
             ((if 3 <? length matching
               then responseText ++ noteText (length matching) (length top)
               else responseText) ++ disclaimerText)
             (Some (StructuredContent q (length matching) shown))).
Proof. reflexivity. Qed.

(** The handler after a search that returned [outl]. *)
Lemma searchTool_run a q h out h1 outl top :
  blank q = false ->
  searchAhaResources a q h = Normal (out, h1) ->
  h1 !! out = Some (OArray outl) ->
  resolves h1 (firstn 3 outl) top ->
  exists ext, searchTool a (Some q) h = Normal (toolAnswer q outl top, h1 ++ ext).
Proof.
  intros Hb Hrun Hout Htop. rewrite searchTool_unfold, Hb.
  rewrite (bind_run _ _ _ _ _ Hrun), (bind_run _ _ _ _ _ (getArray_run _ _ _ Hout)).
  destruct outl as [|l0 outl].
  - exists []. now rewrite app_nil_r.
  - exists [OArray (firstn 3 (l0 :: outl))].
    replace (length (l0 :: outl) =? 0) with false by reflexivity.
    set (matching := l0 :: outl) in *.
    assert (Hslice : Array_slice 0 3 out h1 =
                     Normal (length h1, h1 ++ [OArray (firstn 3 matching)])).
    { unfold Array_slice. now rewrite (bind_run _ _ _ _ _ (getArray_run _ _ _ Hout)). }
    rewrite (bind_run _ _ _ _ _ Hslice).
    rewrite (bind_run _ _ _ _ _
               (getArray_run _ _ _ (list_lookup_middle h1 [] _ _ eq_refl))).
    pose proof (resolves_app h1 [OArray (firstn 3 matching)] _ _ Htop) as Htop'.
    rewrite (bind_run _ _ _ _ _
               (forEachIndexed_run _ (length (firstn 3 matching)) _ _ Htop' 0
                  (headerText q))).
    rewrite (bind_run _ _ _ _ _ (mapM_summarize_run _ _ _ Htop')).
    unfold ret, toolAnswer, successText, matching.
    assert (Hlen : length (firstn 3 (l0 :: outl)) = length top)
      by exact (Forall2_length _ _ _ Htop).
    rewrite Hlen. do 3 f_equal.
    destruct (3 <? length (l0 :: outl));
      repeat (rewrite <- app_assoc || rewrite app_nil_r || cbn [app]); reflexivity.
Qed.

Lemma firstn_incl {A} (n : nat) (l : list A) (x : A) : In x (firstn n l) -> In x l.
Proof.
  revert l. induction n as [|n IH]; intros [|y l]; simpl; try tauto.
  intros [-> | H]; auto.
Qed.

(** Every run of the handler that returns is of one of two kinds: on a
    blank query nothing happens to the heap; otherwise the search has run
    and the answer is made from its result. *)
Lemma searchTool_inv h a ls q res h' :
  collection h a ls ->
  searchTool a (Some q) h = Normal (res, h') ->
  (blank q = true /\ res = ToolResult promptText None /\ h' = h) \/
  (blank q = false /\
   exists top ext,
     resolves h (firstn 3 (ranked (scoreOf h q) ls)) top /\
     res = toolAnswer q (ranked (scoreOf h q) ls) top /\
     h' = h ++ ext).
Proof.
  intros Hc Hrun. destruct (blank q) eqn:Hb.
  - left. rewrite searchTool_unfold, Hb in Hrun. injection Hrun as <- <-. auto.
  - right. split; [reflexivity|].
    destruct (searchAhaResources a q h) as [[out h1]| |] eqn:Hs.
    + destruct (search_normal_inv h a ls q out h1 Hc Hs)
        as [(Hb' & _) | (_ & _ & ext & -> & ->)]; [congruence|].
      set (outl := ranked (scoreOf h q) ls) in *.
      destruct (resolves_exists h (firstn 3 outl)) as [top Htop].
      { intros l Hl. apply firstn_incl in Hl. unfold outl, ranked in Hl.
        apply sortByScore_In, filter_In in Hl as [Hl _]. destruct Hc as [_ Hwf]. auto. }
      destruct (searchTool_run a q h _ _ outl top Hb Hs
                  (list_lookup_middle _ _ _ _ eq_refl)
                  (resolves_app _ _ _ _ (resolves_app _ _ _ _ Htop))) as [ext' Ht].
      rewrite Ht in Hrun. injection Hrun as <- <-.
      exists top, ((ext ++ [OArray outl]) ++ ext'). split; [exact Htop|].
      split; [reflexivity|]. now rewrite <- !app_assoc.
    + exfalso. rewrite searchTool_unfold, Hb in Hrun.
      rewrite (bind_throw _ _ _ _ Hs) in Hrun. discriminate.
    + exfalso. rewrite searchTool_unfold, Hb in Hrun.
      rewrite (bind_unsupported _ _ _ Hs) in Hrun. discriminate.
Qed.

(** X13: without a query, with the empty query or with a query of white
    space only, the tool answers with its prompt for a question and no
    structured content; the search is not run and the heap stays as it
    is, whatever it holds. *)
Theorem X13_tool_prompts_on_blank_query (h : heap) (a : loc) (query : option t) :
  match query with
  | Some q => forallb isWhiteSpace q = true
  | None => True
  end ->
  searchTool a query h = Normal (ToolResult promptText None, h).
Proof.
  destruct query as [q|]; intros Hq; [|reflexivity].
  rewrite searchTool_unfold.
  assert (Hb : blank q = true).
  { unfold blank. rewrite (trim_blank q Hq). apply orb_true_r. }
  now rewrite Hb.
Qed.

Lemma X13_tool_prompt_witness :
  searchTool 3 (Some (str "  ")) (fst (load exampleDocs)) =
  Normal (ToolResult promptText None, fst (load exampleDocs)).
Proof.
  apply (X13_tool_prompts_on_blank_query (fst (load exampleDocs)) 3 (Some (str "  "))).
  reflexivity.
Defined.

(** X14: when the tool returns on a query that is not blank, its answer is
    the not-found text, which quotes the query as it was typed, exactly
    when no resource of the collection has a positive score. *)
Theorem X14_tool_not_found_iff_no_score
  (h : heap) (a : loc) (ls : list loc) (q : t) (res : toolResult) (h' : heap) :
  collection h a ls -> blank q = false ->
  searchTool a (Some q) h = Normal (res, h') ->
  (res = ToolResult (notFoundText q) None <->
   forall l, In l ls -> scoreOf h q l = 0).
Proof.
  intros Hc Hb Hrun.
  destruct (searchTool_inv h a ls q res h' Hc Hrun)
    as [(Hb' & _) | (_ & top & ext & Htop & -> & _)]; [congruence|].
  unfold toolAnswer.
  assert (Hempty : ranked (scoreOf h q) ls = [] <->
                   forall l, In l ls -> scoreOf h q l = 0).
  { unfold ranked. split.
    - intros E l Hl. destruct (Nat.eq_dec (scoreOf h q l) 0) as [E0 | E0]; [exact E0|].
      assert (Hin : In l (sortByScore (scoreOf h q)
                            (List.filter (fun l => 0 <? scoreOf h q l) ls))).
      { apply sortByScore_In, filter_In. split; [exact Hl|]. apply Nat.ltb_lt. lia. }
      rewrite E in Hin. destruct Hin.
    - intros Hz.
      destruct (sortByScore (scoreOf h q)
                  (List.filter (fun l => 0 <? scoreOf h q l) ls)) as [|l0 rest] eqn:E;
        [reflexivity|].
      assert (Hin : In l0 (sortByScore (scoreOf h q)
                             (List.filter (fun l => 0 <? scoreOf h q l) ls)))
        by (rewrite E; now left).
      apply sortByScore_In, filter_In in Hin as [Hl Hpos].
      apply Nat.ltb_lt in Hpos. rewrite (Hz l0 Hl) in Hpos. lia. }
  rewrite <- Hempty.
  destruct (ranked (scoreOf h q) ls) as [|l0 rest]; split; try congruence; auto.
Qed.

Lemma X14_tool_not_found_witness :
  fst (answered (searchTool 3 (Some (str "xyzzy nonsense")) (fst (load exampleDocs)))) =
    ToolResult (notFoundText (str "xyzzy nonsense")) None <->
  forall l, In l [0; 1; 2] ->
    scoreOf (fst (load exampleDocs)) (str "xyzzy nonsense") l = 0.
Proof.
  apply (X14_tool_not_found_iff_no_score (fst (load exampleDocs)) 3 [0; 1; 2]
           (str "xyzzy nonsense") _
           (snd (answered (searchTool 3 (Some (str "xyzzy nonsense"))
                              (fst (load exampleDocs)))))).
  - in_collection.
  - reflexivity.
  - vm_compute. reflexivity.
Defined.

(** X15: the structured content of an answer echoes the query as typed,
    counts all the resources the search returned, at least one, and lists
    the identifier, title and category of the first three of them at most,
    in the order of the ranking. *)
Theorem X15_tool_structured_content
  (h : heap) (a : loc) (ls : list loc) (q : t) (res : toolResult) (h' : heap)
  (sc : structuredContent) :
  collection h a ls ->
  searchTool a (Some q) h = Normal (res, h') ->
  result_structured res = Some sc ->
  sc_query sc = q /\
  resourcesFound sc = length (ranked (scoreOf h q) ls) /\
  0 < resourcesFound sc /\
  length (sc_resources sc) = Nat.min 3 (resourcesFound sc) /\
  exists top,
    resolves h (firstn 3 (ranked (scoreOf h q) ls)) top /\
    sc_resources sc = map summaryOf top.
Proof.
  intros Hc Hrun Hsc.
  destruct (searchTool_inv h a ls q res h' Hc Hrun)
    as [(_ & -> & _) | (_ & top & ext & Htop & -> & _)]; [discriminate|].
  unfold toolAnswer in Hsc.
  destruct (ranked (scoreOf h q) ls) as [|l0 rest] eqn:E; [discriminate|].
  injection Hsc as <-. cbn [sc_query resourcesFound sc_resources].
  split; [reflexivity|]. split; [reflexivity|]. split; [simpl; lia|]. split.
  - rewrite length_map, <- (Forall2_length _ _ _ Htop). apply length_firstn.
  - exists top. split; [exact Htop | reflexivity].
Qed.

Lemma X15_tool_structured_witness :
  let h := fst (load exampleDocs) in
  let sc := StructuredContent (str "Heart") 2
              [summaryOf (heartAttackDoc (str "ha") None); summaryOf dietDoc] in
  sc_query sc = str "Heart" /\
  resourcesFound sc = length (ranked (scoreOf h (str "Heart")) [0; 1; 2]) /\
  0 < resourcesFound sc /\
  length (sc_resources sc) = Nat.min 3 (resourcesFound sc) /\
  exists top,
    resolves h (firstn 3 (ranked (scoreOf h (str "Heart")) [0; 1; 2])) top /\
    sc_resources sc = map summaryOf top.
Proof.
  cbv zeta.
  apply (X15_tool_structured_content (fst (load exampleDocs)) 3 [0; 1; 2] (str "Heart")
           (fst (answered (searchTool 3 (Some (str "Heart")) (fst (load exampleDocs)))))
           (snd (answered (searchTool 3 (Some (str "Heart")) (fst (load exampleDocs)))))).
  - in_collection.
  - vm_compute. reflexivity.
  - vm_compute. reflexivity.
Defined.

(** X16: the text of an answer with structured content starts with the
    header that quotes the query as typed, goes on with the numbered
    entries of the first three resources of the ranking, then, only when
    more than three resources were found, with the note that gives their
    number, and ends with the disclaimer. *)
Theorem X16_tool_text
  (h : heap) (a : loc) (ls : list loc) (q : t) (res : toolResult) (h' : heap)
  (sc : structuredContent) :
  collection h a ls ->
  searchTool a (Some q) h = Normal (res, h') ->
  result_structured res = Some sc ->
  exists top,
    resolves h (firstn 3 (ranked (scoreOf h q) ls)) top /\
    result_text res =
      headerText q ++ renderEntries (length top) 0 top ++
      (if 3 <? resourcesFound sc then noteText (resourcesFound sc) 3 else []) ++
      disclaimerText.
Proof.
  intros Hc Hrun Hsc.
  destruct (searchTool_inv h a ls q res h' Hc Hrun)
    as [(_ & -> & _) | (_ & top & ext & Htop & -> & _)]; [discriminate|].
  unfold toolAnswer in *.
  destruct (ranked (scoreOf h q) ls) as [|l0 rest] eqn:E; [discriminate|].
  assert (Hlen : length top = Nat.min 3 (length (l0 :: rest))).
  { rewrite <- (Forall2_length _ _ _ Htop). apply length_firstn. }
  remember (length (l0 :: rest)) as n eqn:Hn.
  injection Hsc as <-. cbn [result_text resourcesFound].
  exists top. split; [exact Htop|]. unfold successText.
  destruct (3 <? n) eqn:E3; [|reflexivity].
  apply Nat.ltb_lt in E3. replace (length top) with 3 by lia. reflexivity.
Qed.

Lemma X16_tool_text_witness :
  let h := fst (load exampleDocs) in
  let res := fst (answered (searchTool 3 (Some (str "Heart")) h)) in
  exists top,
    resolves h (firstn 3 (ranked (scoreOf h (str "Heart")) [0; 1; 2])) top /\
    result_text res =
      headerText (str "Heart") ++ renderEntries (length top) 0 top ++
      (if 3 <? resourcesFound
                 (StructuredContent (str "Heart") 2
                    [summaryOf (heartAttackDoc (str "ha") None); summaryOf dietDoc])
       then noteText
              (resourcesFound
                 (StructuredContent (str "Heart") 2
                    [summaryOf (heartAttackDoc (str "ha") None); summaryOf dietDoc])) 3
       else []) ++
      disclaimerText.
Proof.
  cbv zeta.
  apply (X16_tool_text (fst (load exampleDocs)) 3 [0; 1; 2] (str "Heart") _
           (snd (answered (searchTool 3 (Some (str "Heart")) (fst (load exampleDocs)))))).
  - in_collection.
  - vm_compute. reflexivity.
  - vm_compute. reflexivity.
Defined.

(** X17: the tool changes no object that existed before its run: the
    collection and its resources are after an answer what they were
    before. *)
Theorem X17_tool_preserves_heap
  (h : heap) (a : loc) (ls : list loc) (query : option t) (res : toolResult)
  (h' : heap) :
  collection h a ls ->
  searchTool a query h = Normal (res, h') ->
  (forall l o, h !! l = Some o -> h' !! l = Some o) /\ collection h' a ls.
Proof.
  intros Hc Hrun.
  assert (Hext : exists ext, h' = h ++ ext).
  { destruct query as [q|].
    - destruct (searchTool_inv h a ls q res h' Hc Hrun)
        as [(_ & _ & ->) | (_ & top & ext & _ & _ & ->)].
      + exists []. now rewrite app_nil_r.
      + now exists ext.
    - injection Hrun as _ <-. exists []. now rewrite app_nil_r. }
  destruct Hext as [ext ->].
  assert (Hframe : forall l o, h !! l = Some o -> (h ++ ext) !! l = Some o)
    by (intros l o; apply lookup_app_l_Some).
  split; [exact Hframe|]. destruct Hc as [Ha Hwf]. split; [now apply Hframe|].
  intros l Hl. destruct (Hwf l Hl) as [r Hr]. exists r. now apply Hframe.
Qed.

Lemma X17_tool_preserves_witness :
  let h := fst (load exampleDocs) in
  let h' := snd (answered (searchTool 3 (Some (str "Heart")) h)) in
  (forall l o, h !! l = Some o -> h' !! l = Some o) /\ collection h' 3 [0; 1; 2].
Proof.
  cbv zeta.
  apply (X17_tool_preserves_heap (fst (load exampleDocs)) 3 [0; 1; 2]
           (Some (str "Heart"))
           (fst (answered (searchTool 3 (Some (str "Heart")) (fst (load exampleDocs)))))).
  - in_collection.
  - vm_compute. reflexivity.
Defined.

(** X18: the tool does not catch what the search throws: on a collection
    that is not empty, a query with a term longer than two characters that
    the RegExp constructor rejects, the terms before it compiling, makes
    the run of the handler end with the SyntaxError. *)
Theorem X18_tool_rethrows
  (h : heap) (a : loc) (l0 : loc) (ls : list loc) (query : t)
  (pre : list t) (term : t) (post : list t) :
  collection h a (l0 :: ls) ->
  queryTermsOf query = pre ++ term :: post ->
  termsCompile pre -> 2 < length term ->
  RegExp.compile term = Throw SyntaxError ->
  searchTool a (Some query) h = Throw SyntaxError.
Proof.
  intros Hc Hq Hpre Hlen Hbad.
  destruct (search_throws_on_rejected_term h a l0 ls query pre term post
              Hc Hq Hpre Hlen Hbad) as [Hb Hthrow].
  rewrite searchTool_unfold, Hb. now apply bind_throw.
Qed.

Lemma X18_tool_rethrows_witness :
  searchTool 3 (Some (str "heart attack (symptoms")) (fst (load exampleDocs)) =
  Throw SyntaxError.
Proof.
  apply (X18_tool_rethrows (fst (load exampleDocs)) 3 0 [1; 2]
           (str "heart attack (symptoms") [str "heart"; str "attack"]
           (str "(symptoms") []).
  - in_collection.
  - vm_compute. reflexivity.
  - intros term Hin _. simpl in Hin.
    destruct Hin as [<- | [<- | []]]; eexists; vm_compute; reflexivity.
  - simpl. lia.
  - vm_compute. reflexivity.
Defined.

(** * The request listener *)

Lemma strEq_true x y : strEq x y = true <-> x = y.
Proof. unfold strEq. destruct (t_eq_dec x y); split; congruence. Qed.

Lemma strEq_false x y : strEq x y = false <-> x <> y.
Proof. unfold strEq. destruct (t_eq_dec x y); split; congruence. Qed.

Lemma methodIs_true req m : methodIs req m = true <-> req_method req = Some m.
Proof.
  unfold methodIs. destruct (req_method req) as [m'|].
  - rewrite strEq_true. split; congruence.
  - split; discriminate.
Qed.

Lemma mcp_method_true m :
  (0 <? length m) && existsb (strEq m) MCP_METHODS = true <->
  m = str "POST" \/ m = str "GET" \/ m = str "DELETE".
Proof.
  unfold MCP_METHODS. cbn [existsb]. rewrite andb_true_iff, !orb_true_iff, !strEq_true.
  split.
  - intros [_ [H | [H | [H | H]]]]; auto. discriminate.
  - intros H. split; [|tauto]. destruct H as [-> | [-> | ->]]; reflexivity.
Qed.

(** What the listener answers once the path of the request is known. *)
Lemma requestListener_routes
  (pathnameOf : t -> t -> completion t) (u : t) (m hst : option t) (pathname : t) :
  u <> [] ->
  pathnameOf u (baseUrl (Request (Some u) m hst)) = Normal pathname ->
  exists r,
    requestListener pathnameOf (Request (Some u) m hst) = Normal r /\
    (served m pathname ->
       r <> notFound /\
       (pathname = str "/mcp" ->
          In allowOrigin (headersOf r) /\ In exposeHeaders (headersOf r))) /\
    (~ served m pathname -> r = notFound).
Proof.
  intros Hu Hp. unfold requestListener. cbn [req_url].
  destruct u as [|c u]; [congruence|]. cbn [length Nat.eqb]. rewrite Hp.
  cbn [cbind req_method].
  destruct (methodIs _ (str "OPTIONS") && strEq pathname MCP_PATH) eqn:E1.
  { eexists. split; [reflexivity|]. split.
    - intros _. split; [discriminate|]. intros _. cbn [headersOf In]. tauto.
    - intros Hn. exfalso. apply Hn.
      apply andb_true_iff in E1 as [Hm Hpath].
      apply methodIs_true in Hm. apply strEq_true in Hpath. cbn in Hm.
      right. split; [exact Hpath | now left]. }
  destruct (methodIs _ (str "GET") && strEq pathname (str "/")) eqn:E2.
  { eexists. split; [reflexivity|]. split.
    - intros _. split; [discriminate|]. intros Hmcp.
      apply andb_true_iff in E2 as [_ Hpath]. apply strEq_true in Hpath.
      rewrite Hpath in Hmcp. discriminate.
    - intros Hn. exfalso. apply Hn.
      apply andb_true_iff in E2 as [Hm Hpath].
      apply methodIs_true in Hm. apply strEq_true in Hpath. cbn in Hm.
      left. split; assumption. }
  destruct (strEq pathname MCP_PATH && _) eqn:E3.
  { eexists. split; [reflexivity|]. split.
    - intros _. split; [discriminate|]. intros _. cbn [headersOf In]. tauto.
    - intros Hn. exfalso. apply Hn.
      apply andb_true_iff in E3 as [Hpath Hm]. apply strEq_true in Hpath.
      destruct m as [m0|]; [|discriminate]. apply mcp_method_true in Hm.
      right. split; [exact Hpath|]. destruct Hm as [-> | [-> | ->]]; auto. }
  eexists. split; [reflexivity|]. split; [|reflexivity].
  intros Hs. exfalso.
  apply andb_false_iff in E1, E2, E3.
  unfold methodIs in E1, E2. cbn [req_method] in E1, E2.
  destruct Hs as [[-> ->] | [-> Hm]].
  - destruct E2 as [E | E]; [|now apply strEq_false in E].
    now apply strEq_false in E.
  - destruct Hm as [-> | Hm].
    + destruct E1 as [E | E]; now apply strEq_false in E.
    + destruct E3 as [E | E]; [now apply strEq_false in E|].
      destruct Hm as [-> | [-> | ->]]; vm_compute in E; discriminate.
Qed.

(** X19: a request with a URL whose path the platform has parsed is
    answered 404 "Not Found" exactly when it is none of the routes served:
    GET on "/", and OPTIONS, POST, GET or DELETE on "/mcp"; the method is
    compared as it stands, in upper case. *)
Theorem X19_not_found_iff_not_served
  (pathnameOf : t -> t -> completion t) (u : t) (m hst : option t) (pathname : t) :
  u <> [] ->
  pathnameOf u (baseUrl (Request (Some u) m hst)) = Normal pathname ->
  (requestListener pathnameOf (Request (Some u) m hst) = Normal notFound <->
   ~ served m pathname).
Proof.
  intros Hu Hp.
  destruct (requestListener_routes pathnameOf u m hst pathname Hu Hp)
    as (r & -> & Hs & Hn).
  split.
  - intros E Hserved. injection E as ->. now destruct (Hs Hserved).
  - intros H. now rewrite (Hn H).
Qed.

Lemma X19_not_found_witness :
  requestListener plainPath (Request (Some (str "/mcp")) (Some (str "get")) None) =
    Normal notFound <->
  ~ served (Some (str "get")) (str "/mcp").
Proof.
  apply (X19_not_found_iff_not_served plainPath (str "/mcp") (Some (str "get")) None
           (str "/mcp")).
  - discriminate.
  - reflexivity.
Defined.

(** X20: every request the listener serves on "/mcp", the preflight as
    well as the requests handed to the transport, gets the headers that
    allow every origin and expose the session header. *)
Theorem X20_mcp_replies_allow_every_origin
  (pathnameOf : t -> t -> completion t) (u : t) (m hst : option t) :
  u <> [] ->
  pathnameOf u (baseUrl (Request (Some u) m hst)) = Normal (str "/mcp") ->
  served m (str "/mcp") ->
  exists r,
    requestListener pathnameOf (Request (Some u) m hst) = Normal r /\
    r <> notFound /\
    In allowOrigin (headersOf r) /\ In exposeHeaders (headersOf r).
Proof.
  intros Hu Hp Hserved.
  destruct (requestListener_routes pathnameOf u m hst (str "/mcp") Hu Hp)
    as (r & Hr & Hs & _).
  destruct (Hs Hserved) as [Hnf Hh]. destruct (Hh eq_refl) as [H1 H2].
  exists r. auto.
Qed.

Lemma X20_mcp_replies_witness :
  exists r,
    requestListener plainPath (Request (Some (str "/mcp")) (Some (str "DELETE")) None)
      = Normal r /\
    r <> notFound /\
    In allowOrigin (headersOf r) /\ In exposeHeaders (headersOf r).
Proof.
  apply (X20_mcp_replies_allow_every_origin plainPath (str "/mcp")
           (Some (str "DELETE")) None).
  - discriminate.
  - reflexivity.
  - right. split; [reflexivity|]. auto.
Defined.
